(** * Game Day Master Chef ratings application (app.py)

    A shallow embedding of the Flask application: the [ratings] table with its
    upsert, the device identity helper, the rating and own-rating endpoints,
    the leaderboard aggregation, the CSV export and the admin gate.

    Conventions.
    - A Python [str] is a Rocq [string]; the model is exact for ASCII text
      (one character per byte), message literals are kept as UTF-8 bytes.
    - A parsed JSON body is a [pyval]; a finite Python float or SQLite REAL is
      a dyadic number [mant * 2^expo] ([float64]).
    - The SQLite table is the list of its rows in rowid order, together with
      the AUTOINCREMENT counter; a handler takes the table and returns the
      reply with the table it leaves behind.
    - Reading the server clock (CURRENT_TIMESTAMP) is an argument [now]. *)

From Stdlib Require Import ZArith List String Ascii Bool Lia.
From Stdlib Require Import Sorted Permutation DecimalString.
From Corelib Require Import SpecFloat.
Import ListNotations.

Local Open Scope string_scope.
Local Open Scope Z_scope.

(* ------------------------------------------------------------------ *)
(** ** Python values and built-ins used by the handlers *)

Module Py.

(** A finite binary floating point number, value [mant * 2^expo]. *)
Record float64 := F64 { mant : Z; expo : Z }.

Inductive pyfloat :=
| Finite (x : float64)
| Inf (negative : bool)
| NaN.

(** What [request.get_json] can return. *)
#[local] Set Warnings "-register-all".
Inductive pyval :=
| PyNone
| PyBool (b : bool)
| PyInt (z : Z)
| PyFloat (f : pyfloat)
| PyStr (s : string)
| PyList (l : list pyval)
| PyDict (d : list (string * pyval)).

(** [dict.get(key)]: the value, or None when the key is missing. *)
Fixpoint dict_get {A} (d : list (string * A)) (key : string) : option A :=
  match d with
  | [] => None
  | (k, v) :: rest => if String.eqb k key then Some v else dict_get rest key
  end.

(** Truth value of an object, as [or] and [not] test it. *)
Definition truthy (v : pyval) : bool :=
  match v with
  | PyNone => false
  | PyBool b => b
  | PyInt z => negb (z =? 0)
  | PyFloat (Finite x) => negb (mant x =? 0)
  | PyFloat _ => true
  | PyStr s => negb (String.eqb s "")
  | PyList l => match l with [] => false | _ => true end
  | PyDict d => match d with [] => false | _ => true end
  end.

(** [a or b] *)
Definition py_or (a b : pyval) : pyval := if truthy a then a else b.

(** [str.isspace] on one character (code points below 128). *)
Definition isspace (c : ascii) : bool :=
  let n := Z.of_nat (nat_of_ascii c) in
  ((9 <=? n) && (n <=? 13)) || ((28 <=? n) && (n <=? 32)).

Fixpoint lstrip (s : string) : string :=
  match s with
  | String c rest => if isspace c then lstrip rest else s
  | EmptyString => EmptyString
  end.

Fixpoint rstrip (s : string) : string :=
  match s with
  | EmptyString => EmptyString
  | String c rest =>
      match rstrip rest with
      | EmptyString => if isspace c then EmptyString else String c EmptyString
      | r => String c r
      end
  end.

(** [s.strip()] *)
Definition strip (s : string) : string := rstrip (lstrip s).

(** [s[:n]] *)
Fixpoint take (n : nat) (s : string) : string :=
  match n, s with
  | S k, String c rest => String c (take k rest)
  | _, _ => EmptyString
  end.

(** [s.replace(old, new)] for a one-character [old]. *)
Fixpoint replace_char (old : ascii) (new : string) (s : string) : string :=
  match s with
  | EmptyString => EmptyString
  | String c rest =>
      if Ascii.eqb c old then new ++ replace_char old new rest
      else String c (replace_char old new rest)
  end.

Definition is_digit (c : ascii) : bool :=
  let n := Z.of_nat (nat_of_ascii c) in (48 <=? n) && (n <=? 57).

Definition digit_val (c : ascii) : Z := Z.of_nat (nat_of_ascii c) - 48.

(** The digits of a decimal literal, most significant first; a single
    underscore is allowed between two digits.  [prev] tells whether the
    previous character was a digit; [acc] is the value read so far and
    [cnt] the number of digits read. *)
Fixpoint scan_digits (s : string) (prev : bool) (acc : Z) (cnt : nat)
  : option (Z * nat) :=
  match s with
  | EmptyString => if prev then Some (acc, cnt) else None
  | String c rest =>
      if is_digit c then scan_digits rest true (10 * acc + digit_val c) (S cnt)
      else if Ascii.eqb c "_" then
             (if prev then scan_digits rest false acc cnt else None)
      else None
  end.

(** sys.int_max_str_digits, the default of CPython 3.11 and later. *)
Definition int_max_str_digits : nat := 4300.

(** [int(s)] for a string: surrounding white space, an optional sign and a
    decimal literal.  [None] stands for ValueError. *)
Definition int_of_str (s : string) : option Z :=
  let body := strip s in
  let '(neg, ds) :=
    match body with
    | String "-" r => (true, r)
    | String "+" r => (false, r)
    | _ => (false, body)
    end in
  match scan_digits ds false 0 0 with
  | Some (v, cnt) =>
      if Nat.ltb int_max_str_digits cnt then None
      else Some (if neg then - v else v)
  | None => None
  end.

(** [int(x)] for a finite float: truncation toward zero. *)
Definition trunc (x : float64) : Z :=
  if 0 <=? expo x then mant x * 2 ^ expo x
  else Z.quot (mant x) (2 ^ (- expo x)).

(** [int(v)].  [None] stands for the exception (TypeError, ValueError or
    OverflowError) the call raises. *)
Definition py_int (v : pyval) : option Z :=
  match v with
  | PyInt z => Some z
  | PyBool b => Some (if b then 1 else 0)
  | PyFloat (Finite x) => Some (trunc x)
  | PyFloat _ => None
  | PyStr s => int_of_str s
  | PyNone | PyList _ | PyDict _ => None
  end.

(** [l[i]] with Python's negative indices; [None] stands for IndexError. *)
Definition getitem {A} (l : list A) (i : Z) : option A :=
  let n := Z.of_nat (List.length l) in
  if (0 <=? i) && (i <? n) then nth_error l (Z.to_nat i)
  else if (- n <=? i) && (i <? 0) then nth_error l (Z.to_nat (n + i))
  else None.

End Py.
Import Py.

(* ------------------------------------------------------------------ *)
(** ** Configuration and the ratings table *)

Definition ENTRANTS : list string :=
  ["Javier"; "Lindsay"; "Yesenia"; "Bryan"; "Viviana"; "Bernie"; "Rogelio";
   "Daniella"; "Colleen"; "Justin"; "Paige"; "Nic"; "Martha"].

(** One row of [ratings]. [judge] is NULL when [None]. *)
Record rating := Rating {
  id : Z;
  entrant_index : Z;
  taste : Z;
  presentation : Z;
  easy : Z;
  judge : option string;
  device_id : string;
  created_at : string
}.

(** The table: its rows in rowid order and the AUTOINCREMENT counter (the
    largest rowid handed out so far). *)
Record table := Table { rows : list rating; seq : Z }.

(** [init_db] on a fresh database file. *)
Definition init_db : table := Table [] 0.

Definition between_1_5 (v : Z) : bool := (1 <=? v) && (v <=? 5).

(** The CHECK constraints of the three score columns. *)
Definition check_scores (t p e : Z) : bool :=
  between_1_5 t && between_1_5 p && between_1_5 e.

(** The UNIQUE (entrant_index, device_id) key of a row. *)
Definition has_key (ei : Z) (dev : string) (r : rating) : bool :=
  (entrant_index r =? ei) && String.eqb (device_id r) dev.

(** DO UPDATE SET taste, presentation, easy, judge: the other columns of the
    conflicting row stay as they are. *)
Definition set_scores (t p e : Z) (j : option string) (r : rating) : rating :=
  Rating (id r) (entrant_index r) t p e j (device_id r) (created_at r).

(** The conflicting row, if there is one, updated in place. *)
Fixpoint do_update (ei : Z) (dev : string) (t p e : Z) (j : option string)
  (rs : list rating) : option (list rating) :=
  match rs with
  | [] => None
  | r :: rest =>
      if has_key ei dev r then Some (set_scores t p e j r :: rest)
      else option_map (cons r) (do_update ei dev t p e j rest)
  end.

(** INSERT ... ON CONFLICT(entrant_index, device_id) DO UPDATE.  A new rowid
    is drawn before the conflict is looked for, so the counter advances in
    both branches.  [None] stands for IntegrityError (a CHECK fails). *)
Definition upsert (now : string) (ei t p e : Z) (j : option string)
  (dev : string) (db : table) : option table :=
  if check_scores t p e then
    let rowid := seq db + 1 in
    match do_update ei dev t p e j (rows db) with
    | Some rs => Some (Table rs rowid)
    | None => Some (Table (rows db ++ [Rating rowid ei t p e j dev now])%list rowid)
    end
  else None.

(* ------------------------------------------------------------------ *)
(** ** Requests and replies *)

Inductive http_method := GET | POST.

Record request := Request {
  method : http_method;
  cookies : list (string * string);
  args : list (string * string);      (* query string *)
  form : list (string * string);      (* form fields of a POST *)
  get_json : option pyval             (* get_json(silent=True) *)
}.

(** A reply of a handler: a body with its HTTP status, or an exception that
    escapes the handler. *)
Inductive reply (A : Type) :=
| Resp (body : A) (status : Z)
| Raised.
Arguments Resp {A} body status.
Arguments Raised {A}.

(* -------- Helpers -------- *)

(** [request.cookies.get("device_id") or "anon"] *)
Definition device_id_from_request (req : request) : string :=
  match dict_get (cookies req) "device_id" with
  | Some d => if String.eqb d "" then "anon" else d
  | None => "anon"
  end.

(* -------- / -------- *)

(** A cookie set on a reply: [set_cookie(name, value, max_age, samesite)]. *)
Record cookie := Cookie {
  c_name : string;
  c_value : string;
  c_max_age : Z;
  c_samesite : string
}.

(** The reply of [home]: the rendered template with its arguments, and the
    cookie it sets, if any. *)
Record home_page := HomePage {
  h_template : string;
  h_entrants : list string;
  h_title : string;
  h_set_cookie : option cookie
}.

(** [home]; [uuid4] is the text of the identifier drawn by [uuid.uuid4()]. *)
Definition home (uuid4 : string) (req : request) : home_page :=
  HomePage "index.html" ENTRANTS
    "2025 GAME DAY MASTER CHEF COMPETITION CHALLENGE"
    (match dict_get (cookies req) "device_id" with
     | Some d =>
         if String.eqb d "" then
           Some (Cookie "device_id" uuid4 (60 * 60 * 24 * 365) "Lax")
         else None
     | None => Some (Cookie "device_id" uuid4 (60 * 60 * 24 * 365) "Lax")
     end).

(* -------- /api/rate -------- *)

(** The JSON object [{"ok": ..., "error": ...}]; [error] is absent on
    success. *)
Record rate_body := RateBody { ok : bool; error : option string }.

(** "Scores must be 1-5" with an en dash (U+2013), as UTF-8. *)
Definition scores_message : string :=
  "Scores must be 1" ++
  String (ascii_of_nat 226) (String (ascii_of_nat 128)
    (String (ascii_of_nat 147) "5")).

(** [data.get(key)] on the body; [None] stands for AttributeError (the body
    is not an object). *)
Definition data_get (data : pyval) (key : string) : option pyval :=
  match data with
  | PyDict d => Some (match dict_get d key with Some v => v | None => PyNone end)
  | _ => None
  end.

(** The judge expression: the value under [judge], or the empty string when
    it is falsy, stripped, cut to 50 characters, and None when nothing is
    left; the outer [None] stands for the exception raised when the value
    has no [strip]. *)
Definition judge_of (data : pyval) : option (option string) :=
  match data_get data "judge" with
  | None => None
  | Some v =>
      match py_or v (PyStr "") with
      | PyStr s =>
          let j := take 50 (strip s) in
          Some (if String.eqb j "" then None else Some j)
      | _ => None
      end
  end.

(** The fields read inside the [try] block. *)
Record payload := Payload {
  p_entrant_index : Z;
  p_taste : Z;
  p_presentation : Z;
  p_easy : Z;
  p_judge : option string
}.

Definition int_field (data : pyval) (key : string) : option Z :=
  match data_get data key with
  | Some v => py_int v
  | None => None
  end.

(** The [try] block of [api_rate]; [None] when any statement raises. *)
Definition parse_payload (data : pyval) : option payload :=
  match int_field data "entrant_index" with
  | None => None
  | Some ei =>
  match int_field data "taste" with
  | None => None
  | Some t =>
  match int_field data "presentation" with
  | None => None
  | Some p =>
  match int_field data "easy" with
  | None => None
  | Some e =>
  match judge_of data with
  | None => None
  | Some j => Some (Payload ei t p e j)
  end end end end end.

(** [for v in (taste, presentation, easy): if v < 1 or v > 5] *)
Definition bad_score (v : Z) : bool := (v <? 1) || (5 <? v).

Definition valid_entrant (ei : Z) : bool :=
  (0 <=? ei) && (ei <? Z.of_nat (List.length ENTRANTS)).

Definition rate_error (msg : string) : reply rate_body :=
  Resp (RateBody false (Some msg)) 400.

(** [request.get_json(silent=True) or {}] *)
Definition request_data (req : request) : pyval :=
  match get_json req with
  | Some v => py_or v (PyDict [])
  | None => PyDict []
  end.

Definition api_rate (now : string) (req : request) (db : table)
  : reply rate_body * table :=
  let data := request_data req in
  match parse_payload data with
  | None => (rate_error "Invalid payload", db)
  | Some pl =>
      if negb (valid_entrant (p_entrant_index pl)) then
        (rate_error "Invalid entrant", db)
      else if existsb bad_score [p_taste pl; p_presentation pl; p_easy pl] then
        (rate_error scores_message, db)
      else
        let device_id := device_id_from_request req in
        match upsert now (p_entrant_index pl) (p_taste pl) (p_presentation pl)
                (p_easy pl) (p_judge pl) device_id db with
        | Some db' => (Resp (RateBody true None) 200, db')
        | None => (Raised, db)
        end
  end.

(* -------- /api/my-rating -------- *)

(** [dict(row)] of the SELECT taste, presentation, easy, judge. *)
Record rating_view := RatingView {
  v_taste : Z;
  v_presentation : Z;
  v_easy : Z;
  v_judge : option string
}.

(** [{"ok": True, "rating": ...}] with [None] for null, or
    [{"ok": False, "error": ...}]. *)
Inductive my_rating_body :=
| MyRating (rating : option rating_view)
| MyError (msg : string).


(** [request.args.get("entrant_index", "-1")] *)
Definition entrant_index_arg (req : request) : string :=
  match dict_get (args req) "entrant_index" with
  | Some s => s
  | None => "-1"
  end.

(** SELECT ... WHERE entrant_index=? AND device_id=?, [fetchone()]. *)
Definition select_own (ei : Z) (dev : string) (db : table) : option rating_view :=
  match find (has_key ei dev) (rows db) with
  | Some r => Some (RatingView (taste r) (presentation r) (easy r) (judge r))
  | None => None
  end.

Definition api_my_rating (req : request) (db : table) : reply my_rating_body :=
  match int_of_str (entrant_index_arg req) with
  | None => Resp (MyError "Bad entrant index") 400
  | Some ei =>
      if negb (valid_entrant ei) then Resp (MyRating None) 200
      else
        let device_id := device_id_from_request req in
        match select_own ei device_id db with
        | None => Resp (MyRating None) 200
        | Some row => Resp (MyRating (Some row)) 200
        end
  end.

(* ------------------------------------------------------------------ *)
(** ** Floating point: SQLite's AVG and Python's [round]

    Both work on IEEE binary64 numbers.  A quotient is rounded to 53
    significant bits, ties to even.  The exponent range is not modelled: every
    quotient formed below has magnitude between 2^-1022 and 2^1024 for the
    tables the application can hold. *)

Module F64.

(** [n / d] rounded to the nearest integer, ties to even ([0 < d]). *)
Definition round_half_even (n d : Z) : Z :=
  let q := n / d in
  let r := n mod d in
  if 2 * r <? d then q
  else if d <? 2 * r then q + 1
  else if Z.even q then q else q + 1.

(** [2^k <= a / b], for positive [a] and [b]. *)
Definition pow2_le_ratio (k a b : Z) : bool :=
  if 0 <=? k then b * 2 ^ k <=? a else b <=? a * 2 ^ (- k).

(** The integer part of the binary logarithm of [a / b]. *)
Definition ilog2_ratio (a b : Z) : Z :=
  let k := Z.log2 a - Z.log2 b in
  if pow2_le_ratio k a b then k else k - 1.

(** The binary64 number nearest to [a / b], for positive [a] and [b]. *)
Definition of_ratio_pos (a b : Z) : float64 :=
  let e := ilog2_ratio a b - 52 in
  let m := if 0 <=? e then round_half_even a (b * 2 ^ e)
           else round_half_even (a * 2 ^ (- e)) b in
  if m =? 2 ^ 53 then F64 (2 ^ 52) (e + 1) else F64 m e.

Definition neg (x : float64) : float64 := F64 (- mant x) (expo x).

(** The binary64 number nearest to [a / b] ([0 < b]): the quotient of two
    integers that are themselves binary64 numbers. *)
Definition of_ratio (a b : Z) : float64 :=
  if a =? 0 then F64 0 0
  else if 0 <? a then of_ratio_pos a b
  else neg (of_ratio_pos (- a) b).

(** [x <= y] *)
Definition leb (x y : float64) : bool :=
  let e := Z.min (expo x) (expo y) in
  mant x * 2 ^ (expo x - e) <=? mant y * 2 ^ (expo y - e).

(** [x * 100] rounded to the nearest integer, ties to even: the digits of
    the correctly rounded two-place decimal of [x]. *)
Definition hundredths (x : float64) : Z :=
  if 0 <=? expo x then 100 * mant x * 2 ^ expo x
  else round_half_even (100 * mant x) (2 ^ (- expo x)).

(** [round(x, 2)]: the two-place decimal nearest to [x], read back as a
    binary64 number. *)
Definition round2 (x : float64) : float64 := of_ratio (hundredths x) 100.

End F64.

Definition sum_Z (l : list Z) : Z := fold_right Z.add 0 l.

(** AVG over an integer column: the integer sum divided by the row count in
    binary64 (both are binary64 numbers themselves as long as they stay
    below 2^53); NULL ([None]) over no rows. *)
Definition sql_avg (l : list Z) : option float64 :=
  match l with
  | [] => None
  | _ => Some (F64.of_ratio (sum_Z l) (Z.of_nat (List.length l)))
  end.

(** Order of SQLite values of one REAL column: NULL sorts before numbers. *)
Definition real_leb (x y : option float64) : bool :=
  match x, y with
  | None, _ => true
  | Some _, None => false
  | Some a, Some b => F64.leb a b
  end.

(** ORDER BY: a stable insertion sort along [le].  (SQLite leaves the order
    of rows that compare equal open; what is proved about the result holds
    for every sorted arrangement.) *)
Section OrderBy.
Context {A : Type} (le : A -> A -> bool).

Fixpoint insert_row (x : A) (l : list A) : list A :=
  match l with
  | [] => [x]
  | y :: rest => if le x y then x :: l else y :: insert_row x rest
  end.

Fixpoint order_by (l : list A) : list A :=
  match l with
  | [] => []
  | x :: rest => insert_row x (order_by rest)
  end.
End OrderBy.

(* -------- /api/leaderboard -------- *)

(** GROUP BY entrant_index: the groups in ascending key order, each with
    its rows in table order. *)
Fixpoint add_to_group (r : rating) (gs : list (Z * list rating))
  : list (Z * list rating) :=
  match gs with
  | [] => [(entrant_index r, [r])]
  | (k, g) :: rest =>
      if entrant_index r <? k then (entrant_index r, [r]) :: gs
      else if entrant_index r =? k then (k, (g ++ [r])%list) :: rest
      else (k, g) :: add_to_group r rest
  end.

Definition group_by_entrant (rs : list rating) : list (Z * list rating) :=
  fold_left (fun gs r => add_to_group r gs) rs [].

Definition total (r : rating) : Z := taste r + presentation r + easy r.

(** One row of the aggregate SELECT. *)
Record agg_row := AggRow {
  a_entrant_index : Z;
  a_votes : Z;
  a_avg_taste : option float64;
  a_avg_presentation : option float64;
  a_avg_easy : option float64;
  a_avg_total : option float64
}.

Definition aggregate (g : Z * list rating) : agg_row :=
  let rs := snd g in
  AggRow (fst g) (Z.of_nat (List.length rs))
    (sql_avg (map taste rs)) (sql_avg (map presentation rs))
    (sql_avg (map easy rs)) (sql_avg (map total rs)).

(** ORDER BY avg_total DESC *)
Definition by_avg_total_desc (a b : agg_row) : bool :=
  real_leb (a_avg_total b) (a_avg_total a).

Definition leaderboard_query (db : table) : list agg_row :=
  order_by by_avg_total_desc (map aggregate (group_by_entrant (rows db))).

(** One object of the leaderboard array. *)
Record lb_entry := LbEntry {
  name : string;
  votes : Z;
  avg_taste : pyval;
  avg_presentation : pyval;
  avg_easy : pyval;
  avg_total : pyval
}.

(** [round(x, 2) if x is not None else 0] *)
Definition round_or_zero (x : option float64) : pyval :=
  match x with
  | Some v => PyFloat (Finite (F64.round2 v))
  | None => PyInt 0
  end.

Definition lb_entry_of (r : agg_row) : option lb_entry :=
  match getitem ENTRANTS (a_entrant_index r) with
  | Some nm =>
      Some (LbEntry nm (a_votes r) (round_or_zero (a_avg_taste r))
              (round_or_zero (a_avg_presentation r))
              (round_or_zero (a_avg_easy r)) (round_or_zero (a_avg_total r)))
  | None => None
  end.

(** A comprehension or an appending loop whose body may raise. *)
Fixpoint map_raise {A B} (f : A -> option B) (l : list A) : option (list B) :=
  match l with
  | [] => Some []
  | x :: rest =>
      match f x with
      | None => None
      | Some y => option_map (cons y) (map_raise f rest)
      end
  end.

Definition api_leaderboard (db : table) : reply (list lb_entry) :=
  match map_raise lb_entry_of (leaderboard_query db) with
  | Some out => Resp out 200
  | None => Raised
  end.

(* -------- /export.csv -------- *)

(** [str(n)] for an integer. *)
Definition str_of_int (n : Z) : string := NilZero.string_of_int (Z.to_int n).

(** [sep.join(parts)] *)
Fixpoint join (sep : string) (parts : list string) : string :=
  match parts with
  | [] => ""
  | [p] => p
  | p :: rest => p ++ sep ++ join sep rest
  end.

Definition newline : string := String (ascii_of_nat 10) "".
Definition dquote : string := String (ascii_of_nat 34) "".

(** [s or <empty string>] for a nullable text column. *)
Definition or_empty (s : option string) : string :=
  match s with Some v => v | None => "" end.

(** The field between double quotes, every double quote in it doubled. *)
Definition quote_escaped (s : string) : string :=
  dquote ++ replace_char (ascii_of_nat 34) (dquote ++ dquote) s ++ dquote.

(** The field between double quotes, as it is. *)
Definition quote_plain (s : string) : string := dquote ++ s ++ dquote.

Definition csv_header : list string :=
  ["id"; "entrant_name"; "taste"; "presentation"; "easy"; "judge";
   "device_id"; "created_at"].

(** The list [line] built for one row; [None] when [ENTRANTS[...]] raises. *)
Definition csv_fields (r : rating) : option (list string) :=
  match getitem ENTRANTS (entrant_index r) with
  | None => None
  | Some nm =>
      Some [ str_of_int (id r);
             quote_escaped nm;
             str_of_int (taste r);
             str_of_int (presentation r);
             str_of_int (easy r);
             quote_escaped (or_empty (judge r));
             quote_plain (device_id r);
             created_at r ]
  end.

(** What a generator hands out: the chunks it yields and whether it ran to
    its end ([false]: an exception stopped it after the last chunk). *)
Record stream := Stream { chunks : list string; finished : bool }.

Fixpoint generate_rows (rs : list rating) : stream :=
  match rs with
  | [] => Stream [] true
  | r :: rest =>
      match csv_fields r with
      | None => Stream [] false
      | Some line =>
          let s := generate_rows rest in
          Stream ((join "," line ++ newline) :: chunks s) (finished s)
      end
  end.

(** The inner [generate()] of [export_csv]. *)
Definition generate (rs : list rating) : stream :=
  let s := generate_rows rs in
  Stream ((join "," csv_header ++ newline) :: chunks s) (finished s).

(** ORDER BY created_at ASC (text, compared byte by byte). *)
Definition by_created_at (a b : rating) : bool :=
  String.leb (created_at a) (created_at b).

Definition export_query (db : table) : list rating :=
  order_by by_created_at (rows db).

Definition export_csv (db : table) : stream := generate (export_query db).

(* -------- Admin: detailed results with simple password gate -------- *)

(** The Flask session: a dictionary carried by a signed cookie. *)
Definition session := list (string * pyval).

Fixpoint dict_pop {A} (d : list (string * A)) (key : string) : list (string * A) :=
  match d with
  | [] => []
  | (k, v) :: rest =>
      if String.eqb k key then dict_pop rest key else (k, v) :: dict_pop rest key
  end.

(** [d[key] = v] *)
Definition dict_set {A} (d : list (string * A)) (key : string) (v : A)
  : list (string * A) := (key, v) :: dict_pop d key.

(** [session.get("is_admin")] as a condition. *)
Definition is_admin (s : session) : bool :=
  match dict_get s "is_admin" with
  | Some v => truthy v
  | None => false
  end.

(** One element of [detailed]. *)
Record detailed_row := DetailedRow {
  d_id : Z;
  d_entrant : string;
  d_taste : Z;
  d_presentation : Z;
  d_easy : Z;
  d_total : Z;
  d_judge : string;
  d_device_id : string;
  d_created_at : string
}.

(** One element of [lb_data]. *)
Record lb_data_row := LbData {
  l_name : string;
  l_votes : Z;
  l_avg_total : pyval
}.

(** What the admin routes answer with. *)
Inductive admin_page :=
| LoginPage (error : option string)     (* admin_login.html *)
| RedirectToAdmin                       (* redirect(url_for("admin")) *)
| ResultsPage (detailed : list detailed_row) (leaderboard : list lb_data_row).

(** ORDER BY r.entrant_index ASC, r.created_at ASC *)
Definition by_entrant_then_created (a b : rating) : bool :=
  (entrant_index a <? entrant_index b) ||
  ((entrant_index a =? entrant_index b) &&
   String.leb (created_at a) (created_at b)).

Definition detailed_of (r : rating) : option detailed_row :=
  match getitem ENTRANTS (entrant_index r) with
  | Some nm =>
      Some (DetailedRow (id r) nm (taste r) (presentation r) (easy r)
              (total r) (or_empty (judge r)) (device_id r) (created_at r))
  | None => None
  end.

(** [round(r["avg_total"] or 0, 2)] *)
Definition round_avg_or_zero (x : option float64) : pyval :=
  match x with
  | Some v => if mant v =? 0 then PyInt 0 else PyFloat (Finite (F64.round2 v))
  | None => PyInt 0
  end.

Definition lb_data_of (r : agg_row) : option lb_data_row :=
  match getitem ENTRANTS (a_entrant_index r) with
  | Some nm => Some (LbData nm (a_votes r) (round_avg_or_zero (a_avg_total r)))
  | None => None
  end.

Section Admin.
(** [os.environ] at start-up. *)
Variable environ : list (string * string).

Definition ADMIN_PASSWORD : string :=
  match dict_get environ "ADMIN_PASSWORD" with
  | Some v => v
  | None => "MASTERCHEF2025"
  end.

(** The [password] form field, or the empty string, stripped. *)
Definition submitted_password (req : request) : string :=
  strip (or_empty (dict_get (form req) "password")).

Definition admin (req : request) (s : session) (db : table)
  : reply admin_page * session :=
  match method req with
  | POST =>
      if String.eqb (submitted_password req) ADMIN_PASSWORD then
        (Resp RedirectToAdmin 302, dict_set s "is_admin" (PyBool true))
      else (Resp (LoginPage (Some "Incorrect password")) 200, s)
  | GET =>
      if negb (is_admin s) then (Resp (LoginPage None) 200, s)
      else
        match map_raise detailed_of
                (order_by by_entrant_then_created (rows db)) with
        | None => (Raised, s)
        | Some detailed =>
            match map_raise lb_data_of (leaderboard_query db) with
            | None => (Raised, s)
            | Some lb => (Resp (ResultsPage detailed lb) 200, s)
            end
        end
  end.

(** [session.pop("is_admin", None)], then the redirect. *)
Definition admin_logout (s : session) : reply admin_page * session :=
  (Resp RedirectToAdmin 302, dict_pop s "is_admin").

(** The requests one browser session sends to the admin routes. *)
Inductive admin_request :=
| ToAdmin (req : request)
| ToLogout.

Definition admin_step (db : table) (s : session) (a : admin_request)
  : reply admin_page * session :=
  match a with
  | ToAdmin req => admin req s db
  | ToLogout => admin_logout s
  end.

(** The session after a sequence of requests. *)
Definition admin_run (db : table) (s : session) (l : list admin_request)
  : session :=
  fold_left (fun st a => snd (admin_step db st a)) l s.
End Admin.

(* ------------------------------------------------------------------ *)
(** ** Invariants of the table and vocabulary of the statements *)

Definition key_of (r : rating) : Z * string := (entrant_index r, device_id r).

(** UNIQUE (entrant_index, device_id) *)
Definition unique_keys (rs : list rating) : Prop := NoDup (map key_of rs).

(** What every stored row satisfies: the CHECK constraints, and an entrant
    index that [api_rate] let through. *)
Definition row_ok (r : rating) : Prop :=
  valid_entrant (entrant_index r) = true /\
  check_scores (taste r) (presentation r) (easy r) = true.

Definition table_ok (db : table) : Prop :=
  unique_keys (rows db) /\ Forall row_ok (rows db).

(** The rows stored for one (entrant, device) pair. *)
Definition slot (ei : Z) (dev : string) (db : table) : list rating :=
  filter (has_key ei dev) (rows db).

(** The rows stored for one entrant. *)
Definition ratings_of (ei : Z) (db : table) : list rating :=
  filter (fun r => entrant_index r =? ei) (rows db).

(** A payload that passes both range checks of [api_rate]. *)
Definition acceptable (pl : payload) : Prop :=
  0 <= p_entrant_index pl < Z.of_nat (List.length ENTRANTS) /\
  1 <= p_taste pl <= 5 /\ 1 <= p_presentation pl <= 5 /\ 1 <= p_easy pl <= 5.

Definition rate_ok : reply rate_body := Resp (RateBody true None) 200.

(* ------------------------------------------------------------------ *)
(** ** Further vocabulary of the statements, and sample inputs *)

Definition with_device (dev : string) : list (string * string) :=
  [("device_id", dev)].

(** A POST to /api/rate with a JSON body. *)
Definition rate_request (cookie : list (string * string)) (body : pyval)
  : request := Request POST cookie [] [] (Some body).

Definition scores_body (ei t p e : pyval) (j : string) : pyval :=
  PyDict [("entrant_index", ei); ("taste", t); ("presentation", p);
          ("easy", e); ("judge", PyStr j)].

Definition first_vote : request :=
  rate_request (with_device "d1")
    (scores_body (PyInt 0) (PyInt 5) (PyInt 4) (PyInt 3) "Ann").

Definition second_vote : request :=
  rate_request (with_device "d1")
    (scores_body (PyInt 0) (PyInt 1) (PyInt 2) (PyInt 4) " Bob ").

Definition noon : string := "2025-02-09 12:00:00".
Definition later : string := "2025-02-09 12:30:00".


Definition no_device_cookie (req : request) : Prop :=
  dict_get (cookies req) "device_id" = None.

Definition cookieless_vote : request :=
  rate_request []
    (scores_body (PyInt 3) (PyInt 5) (PyInt 5) (PyInt 5) "Ann").

Definition other_cookieless_vote : request :=
  rate_request []
    (scores_body (PyInt 3) (PyInt 2) (PyInt 1) (PyInt 2) "Bob").

Definition own_rating_query (cookie : list (string * string)) (ei : string)
  : request := Request GET cookie [("entrant_index", ei)] [] None.


(** 4.7 and -0.5 as binary64 numbers. *)
Definition f_4_7 : float64 := F64 5291729562160333 (-50).
Definition f_minus_half : float64 := F64 (-4503599627370496) (-53).



Definition view_of (r : rating) : rating_view :=
  RatingView (taste r) (presentation r) (easy r) (judge r).

Definition own_rating_reader : request := own_rating_query (with_device "d1") "0".

Definition one_vote_db : table :=
  Table [Rating 1 0 5 4 3 (Some "Ann") "d1" noon] 1.

Definition csv_header_line : string :=
  "id,entrant_name,taste,presentation,easy,judge,device_id,created_at"
  ++ newline.

(** [chunk] is the line [generate] yields for row [r]. *)
Definition csv_line_of (r : rating) (chunk : string) : Prop :=
  exists nm,
    getitem ENTRANTS (entrant_index r) = Some nm /\
    chunk = join "," [ str_of_int (id r); quote_escaped nm;
                       str_of_int (taste r); str_of_int (presentation r);
                       str_of_int (easy r);
                       quote_escaped (or_empty (judge r));
                       quote_plain (device_id r); created_at r ] ++ newline.

Definition created_before (a b : rating) : Prop :=
  String.leb (created_at a) (created_at b) = true.

Definition two_votes_db : table :=
  Table [Rating 1 0 5 4 3 (Some "Ann") "d1" later;
         Rating 2 2 1 2 3 None "d2" noon] 2.

(** The inverse of the quote doubling: a doubled quote reads as one. *)
Fixpoint undouble (s : string) : string :=
  match s with
  | String c (String c' rest as tl) =>
      if Ascii.eqb c (ascii_of_nat 34) && Ascii.eqb c' (ascii_of_nat 34)
      then String c (undouble rest)
      else String c (undouble tl)
  | _ => s
  end.

(** A device identifier with a double quote between a and b, as a client
    can set it in its Cookie header. *)
Definition device_with_quote : string := "a" ++ dquote ++ "b".
Definition judge_with_quote : string := "say " ++ dquote ++ "hi" ++ dquote.

Definition quoted_row : rating :=
  Rating 1 0 5 4 3 (Some judge_with_quote) device_with_quote noon.

(** Insertion into an ascending list of distinct indices. *)
Fixpoint insert_key (k : Z) (ks : list Z) : list Z :=
  match ks with
  | [] => [k]
  | k' :: rest =>
      if k <? k' then k :: ks
      else if k =? k' then ks
      else k' :: insert_key k rest
  end.

(** The distinct entrant indices of a list of rows, ascending. *)
Definition keys_of (rs : list rating) : list Z :=
  fold_left (fun ks r => insert_key (entrant_index r) ks) rs [].

Definition of_entrant (ei : Z) (r : rating) : bool := entrant_index r =? ei.

(** The mean total score of an entrant as the query computes it. *)
Definition mean_total (db : table) (ei : Z) : option float64 :=
  sql_avg (map total (ratings_of ei db)).

(** The aggregate row of one entrant. *)
Definition agg_of (db : table) (ei : Z) : agg_row :=
  aggregate (ei, ratings_of ei db).

(** [i] may stand before [j]: the mean total of [i] is not below that of
    [j]. *)
Definition ranks_before (db : table) (i j : Z) : bool :=
  real_leb (mean_total db j) (mean_total db i).

(** The entrant indices in the order of the leaderboard. *)
Definition ranking (db : table) : list Z :=
  order_by (ranks_before db) (keys_of (rows db)).

(** The exact mean total of [j] is at most that of [i]:
    [sum_j / n_j <= sum_i / n_i], cross-multiplied. *)
Definition mean_total_le (db : table) (j i : Z) : Prop :=
  sum_Z (map total (ratings_of j db)) * Z.of_nat (List.length (ratings_of i db))
  <= sum_Z (map total (ratings_of i db)) * Z.of_nat (List.length (ratings_of j db)).

(** What the leaderboard shows for entrant [ei]. *)
Definition entry_for (db : table) (ei : Z) (x : lb_entry) : Prop :=
  getitem ENTRANTS ei = Some (name x) /\
  votes x = Z.of_nat (List.length (ratings_of ei db)) /\
  avg_taste x = round_or_zero (sql_avg (map taste (ratings_of ei db))) /\
  avg_presentation x =
    round_or_zero (sql_avg (map presentation (ratings_of ei db))) /\
  avg_easy x = round_or_zero (sql_avg (map easy (ratings_of ei db))) /\
  avg_total x = round_or_zero (mean_total db ei).

Definition three_votes_db : table :=
  Table [Rating 1 0 5 4 3 (Some "Ann") "d1" noon;
         Rating 2 2 5 5 5 None "d1" noon;
         Rating 3 0 4 4 4 None "d2" later] 3.

(** 15.0, 12.0, 5.0, 4.5, 4.0 and 3.5 as binary64 numbers. *)
Definition f_15 : float64 := F64 8444249301319680 (-49).
Definition f_12 : float64 := F64 6755399441055744 (-49).
Definition f_5 : float64 := F64 5629499534213120 (-50).
Definition f_4_5 : float64 := F64 5066549580791808 (-50).
Definition f_4 : float64 := F64 4503599627370496 (-50).
Definition f_3_5 : float64 := F64 7881299347898368 (-51).

(** Integers, binary64 division and the numbers of the model in the
    library's specification of IEEE 754 arithmetic (SpecFloat); used to
    check the model of the quotient against that specification. *)
Definition ieee_of_Z (n : Z) : spec_float := binary_normalize 53 1024 n 0 false.

Definition ieee_div (a b : Z) : spec_float :=
  SFdiv 53 1024 (ieee_of_Z a) (ieee_of_Z b).

Definition as_ieee (x : float64) : spec_float :=
  match mant x with
  | Z0 => S754_zero false
  | Zpos m => S754_finite false m (expo x)
  | Zneg m => S754_finite true m (expo x)
  end.

Definition same_float (x y : spec_float) : bool :=
  match x, y with
  | S754_finite s m e, S754_finite s' m' e' =>
      Bool.eqb s s' && Pos.eqb m m' && Z.eqb e e'
  | S754_zero _, S754_zero _ => true
  | _, _ => false
  end.

Definition range_from (lo : Z) (n : nat) : list Z :=
  map (fun i => lo + Z.of_nat i) (List.seq 0 n).

Definition quotients_agree (votes : nat) : bool :=
  forallb
    (fun n =>
       forallb (fun s => same_float (ieee_div s n) (as_ieee (F64.of_ratio s n)))
         (range_from n (Z.to_nat (14 * n + 1))))
    (range_from 1 votes).

(** [v] is the mean of [l] rounded to two decimal places: the binary64
    number nearest to [h / 100], for an integer [h] with
    [|h / 100 - mean| <= 1 / 200], the mean being [sum_Z l / length l]. *)
Definition rounded_mean (l : list Z) (v : pyval) : Prop :=
  exists h,
    v = PyFloat (Finite (F64.of_ratio h 100)) /\
    2 * Z.abs (Z.of_nat (List.length l) * h - 100 * sum_Z l)
    <= Z.of_nat (List.length l).

(** A POST to /admin that carries the configured password (as the handler
    compares it: the form field stripped of surrounding white space). *)
Definition correct_post (environ : list (string * string)) (a : admin_request)
  : bool :=
  match a with
  | ToAdmin req =>
      match method req with
      | POST => String.eqb (submitted_password req) (ADMIN_PASSWORD environ)
      | GET => false
      end
  | ToLogout => false
  end.

(** The two-state machine of the gate: a logout leads to unauthenticated, a
    correct POST to authenticated, anything else stays. *)
Definition gate_step (environ : list (string * string)) (st : bool)
  (a : admin_request) : bool :=
  match a with
  | ToLogout => false
  | _ => st || correct_post environ a
  end.

Definition authenticated_after (environ : list (string * string))
  (start : bool) (l : list admin_request) : bool :=
  fold_left (gate_step environ) l start.

Definition admin_get : request := Request GET [] [] [] None.

Definition admin_post (pw : string) : request :=
  Request POST [] [] [("password", pw)] None.

Definition fresh_vote : request :=
  rate_request (with_device "d9")
    (PyDict [("entrant_index", PyInt 0); ("taste", PyInt 5);
             ("presentation", PyInt 4); ("easy", PyInt 3)]).

(** The table after a sequence of submissions, each with the reading of the
    clock at its time. *)
Definition rate_all (l : list (string * request)) (db : table) : table :=
  fold_left (fun d c => snd (api_rate (fst c) (snd c) d)) l db.

(** 5.5 and 0.5 as binary64 numbers. *)
Definition f_5_5 : float64 := F64 6192449487634432 (-50).
Definition f_half : float64 := F64 4503599627370496 (-53).

(** The rowids of a table: ascending in row order, positive, and none
    above the AUTOINCREMENT counter. *)
Definition ids_ascending (db : table) : Prop :=
  StronglySorted Z.lt (map id (rows db)) /\
  0 <= seq db /\
  Forall (fun r => 1 <= id r <= seq db) (rows db).

(** The text columns as [api_rate] writes them: a device identifier that is
    not empty; a judge that is NULL or a non-empty text of at most 50
    characters with no white space in front. *)
Definition judge_normal (j : option string) : Prop :=
  match j with
  | None => True
  | Some t => t <> "" /\ (String.length t <= 50)%nat /\ lstrip t = t
  end.

Definition row_normal (r : rating) : Prop :=
  device_id r <> "" /\ judge_normal (judge r).

Definition third_vote : request :=
  rate_request (with_device "d2")
    (scores_body (PyInt 0) (PyInt 3) (PyInt 3) (PyInt 3) "Cy").

(** The next request of a browser that took the cookie of a reply; the
    browser keeps the cookies it had under other names. *)
Definition with_cookie (c : cookie) (req : request) : request :=
  Request (method req) (dict_set (cookies req) (c_name c) (c_value c))
    (args req) (form req) (get_json req).

Definition starts_clean (s : string) : Prop :=
  match s with
  | String c _ => isspace c = false
  | EmptyString => True
  end.

(** [v] shows a two-place decimal between [lo / 100] and [hi / 100]. *)
Definition hundredths_between (lo hi : Z) (v : pyval) : Prop :=
  exists h, v = PyFloat (Finite (F64.of_ratio h 100)) /\ lo <= h <= hi.

(** ORDER BY r.entrant_index ASC, r.created_at ASC, as a relation. *)
Definition entrant_then_created (a b : rating) : Prop :=
  entrant_index a < entrant_index b \/
  (entrant_index a = entrant_index b /\
   String.leb (created_at a) (created_at b) = true).

Definition admin_session : session := [("is_admin", PyBool true)].

Definition padded_environ : list (string * string) :=
  [("ADMIN_PASSWORD", " chef")].

Definition device_cookie (uuid4 : string) : cookie :=
  Cookie "device_id" uuid4 31536000 "Lax".

(* ------------------------------------------------------------------ *)
(** ** The upsert *)

Lemma has_key_true ei dev r :
  has_key ei dev r = true <-> key_of r = (ei, dev).
Proof.
  unfold has_key, key_of. rewrite andb_true_iff, Z.eqb_eq, String.eqb_eq.
  split; [intros [-> ->]; reflexivity | intros H; inversion H; auto].
Qed.

Lemma has_key_false ei dev r :
  has_key ei dev r = false <-> key_of r <> (ei, dev).
Proof.
  rewrite <- has_key_true. destruct (has_key ei dev r); split; congruence.
Qed.

Lemma has_key_set_scores ei dev t p e j r :
  has_key ei dev (set_scores t p e j r) = has_key ei dev r.
Proof. reflexivity. Qed.

Lemma filter_nil_iff {A} (f : A -> bool) l :
  filter f l = [] <-> forall x, In x l -> f x = false.
Proof.
  induction l as [|a l IH]; simpl.
  - split; [intros _ x [] | reflexivity].
  - destruct (f a) eqn:E.
    + split; [discriminate|]. intros H. specialize (H a (or_introl eq_refl)).
      congruence.
    + rewrite IH. split.
      * intros H x [<-|Hx]; auto.
      * intros H x Hx. apply H. now right.
Qed.

(** Under the uniqueness constraint a slot holds at most one row. *)
Lemma unique_slot ei dev r rest :
  unique_keys (r :: rest) -> has_key ei dev r = true ->
  filter (has_key ei dev) rest = [].
Proof.
  unfold unique_keys. simpl. intros Hnd Hk. inversion Hnd as [|k ks Hnin _]; subst.
  apply filter_nil_iff. intros x Hx. apply has_key_false. intros Hkx.
  apply Hnin. apply has_key_true in Hk. rewrite Hk, <- Hkx. now apply in_map.
Qed.

Lemma do_update_none ei dev t p e j rs :
  do_update ei dev t p e j rs = None <-> filter (has_key ei dev) rs = [].
Proof.
  induction rs as [|r rs IH]; simpl.
  - tauto.
  - destruct (has_key ei dev r) eqn:E.
    + split; discriminate.
    + destruct (do_update ei dev t p e j rs); simpl.
      * split; [discriminate|]. intros H. apply IH in H. discriminate.
      * split; [|reflexivity]. intros _. now apply IH.
Qed.

(** The update branch: the one conflicting row changes its scores and judge
    and nothing else; every other row, the order and the keys stay. *)
Lemma do_update_some ei dev t p e j rs rs' :
  unique_keys rs ->
  do_update ei dev t p e j rs = Some rs' ->
  exists r,
    filter (has_key ei dev) rs = [r] /\
    filter (has_key ei dev) rs' = [set_scores t p e j r] /\
    map key_of rs' = map key_of rs /\
    List.length rs' = List.length rs /\
    (forall f, (forall x, has_key ei dev x = true -> f x = false) ->
               filter f rs' = filter f rs).
Proof.
  revert rs'. induction rs as [|r rs IH]; simpl; intros rs' Hu H; [discriminate|].
  destruct (has_key ei dev r) eqn:E.
  - inversion H; subst; clear H. exists r. simpl.
    rewrite has_key_set_scores, E.
    rewrite (unique_slot ei dev r rs Hu E).
    repeat split; auto.
    intros f Hf. rewrite (Hf r E).
    rewrite (Hf (set_scores t p e j r)); [reflexivity|].
    now rewrite has_key_set_scores.
  - destruct (do_update ei dev t p e j rs) as [rs0|] eqn:D; simpl in H;
      [|discriminate].
    inversion H; subst; clear H.
    assert (Hu' : unique_keys rs) by (unfold unique_keys in *; simpl in Hu;
                                      now inversion Hu).
    destruct (IH rs0 Hu' eq_refl) as (r0 & H1 & H2 & H3 & H4 & H5).
    exists r0. simpl. rewrite E, H3, H4. repeat split; auto.
    intros f Hf. rewrite (H5 f Hf). reflexivity.
Qed.

Lemma filter_app_single {A} (f : A -> bool) l x :
  filter f (l ++ [x]) = (filter f l ++ if f x then [x] else [])%list.
Proof. rewrite filter_app. simpl. now destruct (f x). Qed.

(** What one accepted upsert does to the slot it addresses. *)
Lemma upsert_slot now ei t p e j dev db db' :
  unique_keys (rows db) ->
  upsert now ei t p e j dev db = Some db' ->
  exists r',
    slot ei dev db' = [r'] /\
    taste r' = t /\ presentation r' = p /\ easy r' = e /\ judge r' = j /\
    (slot ei dev db = [] ->
       r' = Rating (seq db + 1) ei t p e j dev now /\
       rows db' = (rows db ++ [r'])%list) /\
    (forall r, slot ei dev db = [r] ->
       r' = set_scores t p e j r /\
       List.length (rows db') = List.length (rows db)).
Proof.
  unfold upsert, slot. intros Hu H.
  destruct (check_scores t p e); [|discriminate].
  destruct (do_update ei dev t p e j (rows db)) as [rs|] eqn:D.
  - inversion H; subst; clear H. simpl.
    destruct (do_update_some _ _ _ _ _ _ _ _ Hu D) as (r & H1 & H2 & H3 & H4 & _).
    exists (set_scores t p e j r). rewrite H1, H2.
    repeat split; auto; try discriminate.
    all: match goal with H : [_] = [_] |- _ => inversion H; subst end; auto.
  - inversion H; subst; clear H. simpl.
    apply do_update_none in D.
    exists (Rating (seq db + 1) ei t p e j dev now).
    rewrite filter_app_single, D. simpl.
    unfold has_key. simpl. rewrite Z.eqb_refl, String.eqb_refl. simpl.
    repeat split; auto; discriminate.
Qed.

(** The slots of other (entrant, device) pairs are not touched. *)
Lemma upsert_other_slot now ei t p e j dev db db' ei' dev' :
  unique_keys (rows db) ->
  upsert now ei t p e j dev db = Some db' ->
  (ei', dev') <> (ei, dev) ->
  slot ei' dev' db' = slot ei' dev' db.
Proof.
  unfold upsert, slot. intros Hu H Hne.
  destruct (check_scores t p e); [|discriminate].
  assert (Hf : forall x, has_key ei dev x = true -> has_key ei' dev' x = false).
  { intros x Hx. apply has_key_true in Hx. apply has_key_false. congruence. }
  destruct (do_update ei dev t p e j (rows db)) as [rs|] eqn:D.
  - inversion H; subst; clear H. simpl.
    destruct (do_update_some _ _ _ _ _ _ _ _ Hu D) as (r & _ & _ & _ & _ & H5).
    now apply H5.
  - inversion H; subst; clear H. simpl.
    rewrite filter_app_single. rewrite Hf; [apply app_nil_r|].
    unfold has_key. simpl. now rewrite Z.eqb_refl, String.eqb_refl.
Qed.

Lemma upsert_unique now ei t p e j dev db db' :
  unique_keys (rows db) ->
  upsert now ei t p e j dev db = Some db' ->
  unique_keys (rows db').
Proof.
  unfold upsert. intros Hu H.
  destruct (check_scores t p e); [|discriminate].
  destruct (do_update ei dev t p e j (rows db)) as [rs|] eqn:D.
  - inversion H; subst; clear H. simpl.
    destruct (do_update_some _ _ _ _ _ _ _ _ Hu D) as (r & _ & _ & H3 & _).
    unfold unique_keys. now rewrite H3.
  - inversion H; subst; clear H. simpl.
    apply do_update_none in D. unfold unique_keys.
    rewrite map_app. simpl.
    apply NoDup_rev in Hu. rewrite <- (rev_involutive (_ ++ _)).
    apply NoDup_rev. rewrite rev_app_distr. simpl. constructor; auto.
    rewrite <- in_rev. intros Hin. apply in_map_iff in Hin.
    destruct Hin as (x & Hk & Hx).
    rewrite filter_nil_iff in D. specialize (D x Hx).
    apply has_key_false in D. apply D. exact Hk.
Qed.

Lemma do_update_Forall (P : rating -> Prop) ei dev t p e j rs rs' :
  (forall r, P r -> P (set_scores t p e j r)) ->
  Forall P rs -> do_update ei dev t p e j rs = Some rs' -> Forall P rs'.
Proof.
  intros HP. revert rs'. induction rs as [|r rs IH]; simpl; intros rs' HF H;
    [discriminate|].
  inversion HF; subst.
  destruct (has_key ei dev r).
  - inversion H; subst. constructor; auto.
  - destruct (do_update ei dev t p e j rs) as [rs0|]; simpl in H;
      [|discriminate].
    inversion H; subst. constructor; auto.
Qed.

Lemma upsert_table_ok now ei t p e j dev db db' :
  valid_entrant ei = true ->
  table_ok db -> upsert now ei t p e j dev db = Some db' -> table_ok db'.
Proof.
  intros Hv [Hu HF] H. split; [eapply upsert_unique; eauto|].
  unfold upsert in H. destruct (check_scores t p e) eqn:C; [|discriminate].
  destruct (do_update ei dev t p e j (rows db)) as [rs|] eqn:D;
    inversion H; subst; clear H; simpl.
  - eapply do_update_Forall; [|exact HF|exact D].
    intros r [H1 _]. split; [exact H1|exact C].
  - apply Forall_app. split; [exact HF|]. constructor; [|constructor].
    split; [exact Hv|exact C].
Qed.

(* ------------------------------------------------------------------ *)
(** ** /api/rate *)

Lemma valid_entrant_iff ei :
  valid_entrant ei = true <-> 0 <= ei < Z.of_nat (List.length ENTRANTS).
Proof.
  unfold valid_entrant. rewrite andb_true_iff, Z.leb_le, Z.ltb_lt. tauto.
Qed.

Lemma acceptable_checks pl :
  acceptable pl <->
  valid_entrant (p_entrant_index pl) = true /\
  existsb bad_score [p_taste pl; p_presentation pl; p_easy pl] = false.
Proof.
  unfold acceptable, valid_entrant, bad_score. simpl.
  rewrite andb_true_iff, Z.leb_le, Z.ltb_lt.
  rewrite !orb_false_iff, !Z.ltb_ge. intuition lia.
Qed.

Lemma acceptable_check_scores pl :
  acceptable pl ->
  check_scores (p_taste pl) (p_presentation pl) (p_easy pl) = true.
Proof.
  unfold acceptable, check_scores, between_1_5. intros (_ & ? & ? & ?).
  rewrite !andb_true_iff, !Z.leb_le. lia.
Qed.

(** An accepted submission answers 200 and runs the upsert. *)
Lemma api_rate_accepts now req db pl :
  parse_payload (request_data req) = Some pl -> acceptable pl ->
  exists db',
    upsert now (p_entrant_index pl) (p_taste pl) (p_presentation pl)
      (p_easy pl) (p_judge pl) (device_id_from_request req) db = Some db' /\
    api_rate now req db = (rate_ok, db').
Proof.
  intros Hp Ha. unfold api_rate. rewrite Hp.
  pose proof (acceptable_check_scores pl Ha) as Hc.
  apply acceptable_checks in Ha. destruct Ha as [Hv Hs].
  rewrite Hv, Hs. simpl. unfold upsert. rewrite Hc.
  destruct (do_update _ _ _ _ _ _ _); eexists; split; reflexivity.
Qed.

(** Every outcome of [api_rate]: a 400 that leaves the table alone, or a
    200 after the upsert of an acceptable payload.  No exception escapes. *)
Lemma api_rate_cases now req db :
  (exists msg, api_rate now req db = (rate_error msg, db)) \/
  (exists pl db',
     parse_payload (request_data req) = Some pl /\ acceptable pl /\
     upsert now (p_entrant_index pl) (p_taste pl) (p_presentation pl)
       (p_easy pl) (p_judge pl) (device_id_from_request req) db = Some db' /\
     api_rate now req db = (rate_ok, db')).
Proof.
  destruct (parse_payload (request_data req)) as [pl|] eqn:Hp.
  - destruct (valid_entrant (p_entrant_index pl)) eqn:Hv.
    + destruct (existsb bad_score [p_taste pl; p_presentation pl; p_easy pl])
        eqn:Hs.
      * left. exists scores_message. unfold api_rate. rewrite Hp, Hv, Hs.
        reflexivity.
      * right. assert (Ha : acceptable pl) by (apply acceptable_checks; auto).
        destruct (api_rate_accepts now req db pl Hp Ha) as (db' & H1 & H2).
        exists pl, db'. auto.
    + left. exists "Invalid entrant". unfold api_rate. rewrite Hp, Hv.
      reflexivity.
  - left. exists "Invalid payload". unfold api_rate. rewrite Hp. reflexivity.
Qed.

(** The invariant of the table holds at start-up and after every request. *)
Lemma init_db_ok : table_ok init_db.
Proof. split; [constructor|constructor]. Qed.

Lemma api_rate_table_ok now req db :
  table_ok db -> table_ok (snd (api_rate now req db)).
Proof.
  intros Hok. destruct (api_rate_cases now req db) as [[msg H]|H].
  - rewrite H. exact Hok.
  - destruct H as (pl & db' & _ & Ha & Hu & H). rewrite H. simpl.
    eapply upsert_table_ok; [|exact Hok|exact Hu].
    apply acceptable_checks in Ha. tauto.
Qed.

(** X6. Every table the application can reach from an empty database
    satisfies the constraints of the schema and of [api_rate]: no two rows
    share an (entrant, device) pair, every score lies in 1..5 and every
    entrant index is a valid index of [ENTRANTS]. *)
Lemma reachable_table_ok l : table_ok (rate_all l init_db).
Proof.
  unfold rate_all. generalize init_db_ok. generalize init_db.
  induction l as [|c l IH]; intros db Hok; simpl; [exact Hok|].
  apply IH. now apply api_rate_table_ok.
Qed.

(** Two accepted submissions for the same entrant from the same device. *)
Lemma rate_twice now1 now2 req1 req2 db pl1 pl2 :
  unique_keys (rows db) ->
  parse_payload (request_data req1) = Some pl1 -> acceptable pl1 ->
  parse_payload (request_data req2) = Some pl2 -> acceptable pl2 ->
  p_entrant_index pl2 = p_entrant_index pl1 ->
  device_id_from_request req2 = device_id_from_request req1 ->
  exists db1 db2 row1,
    api_rate now1 req1 db = (rate_ok, db1) /\
    api_rate now2 req2 db1 = (rate_ok, db2) /\
    slot (p_entrant_index pl1) (device_id_from_request req1) db1 = [row1] /\
    slot (p_entrant_index pl1) (device_id_from_request req1) db2 =
      [set_scores (p_taste pl2) (p_presentation pl2) (p_easy pl2)
         (p_judge pl2) row1] /\
    List.length (rows db2) = List.length (rows db1) /\
    (slot (p_entrant_index pl1) (device_id_from_request req1) db = [] ->
       created_at row1 = now1) /\
    (forall r0,
       slot (p_entrant_index pl1) (device_id_from_request req1) db = [r0] ->
       created_at row1 = created_at r0).
Proof.
  intros Hu Hp1 Ha1 Hp2 Ha2 He Hd.
  destruct (api_rate_accepts now1 req1 db pl1 Hp1 Ha1) as (db1 & U1 & R1).
  destruct (api_rate_accepts now2 req2 db1 pl2 Hp2 Ha2) as (db2 & U2 & R2).
  rewrite He, Hd in U2.
  pose proof (upsert_unique _ _ _ _ _ _ _ _ _ Hu U1) as Hu1.
  destruct (upsert_slot _ _ _ _ _ _ _ _ _ Hu U1)
    as (row1 & S1 & _ & _ & _ & _ & Hnew & Hold).
  destruct (upsert_slot _ _ _ _ _ _ _ _ _ Hu1 U2)
    as (row2 & S2 & _ & _ & _ & _ & _ & Hold2).
  destruct (Hold2 row1 S1) as [-> Hlen].
  exists db1, db2, row1. repeat split; auto.
  - intros Hs. destruct (Hnew Hs) as [-> _]. reflexivity.
  - intros r0 Hs. destruct (Hold r0 Hs) as [-> _]. reflexivity.
Qed.

(** C1. Two accepted submissions for one entrant from one device leave
    exactly one row in that (entrant, device) slot; its scores and judge are
    those of the second submission, and its identifier and creation
    timestamp are those the row had after the first one: the time of the
    first submission when that one inserted the row. *)
Theorem rate_resubmission_overwrites_in_place
  now1 now2 req1 req2 db pl1 pl2 :
  unique_keys (rows db) ->
  parse_payload (request_data req1) = Some pl1 -> acceptable pl1 ->
  parse_payload (request_data req2) = Some pl2 -> acceptable pl2 ->
  p_entrant_index pl2 = p_entrant_index pl1 ->
  device_id_from_request req2 = device_id_from_request req1 ->
  exists db1 db2 row1 row2,
    api_rate now1 req1 db = (rate_ok, db1) /\
    api_rate now2 req2 db1 = (rate_ok, db2) /\
    slot (p_entrant_index pl1) (device_id_from_request req1) db1 = [row1] /\
    slot (p_entrant_index pl1) (device_id_from_request req1) db2 = [row2] /\
    taste row2 = p_taste pl2 /\
    presentation row2 = p_presentation pl2 /\
    easy row2 = p_easy pl2 /\
    judge row2 = p_judge pl2 /\
    created_at row2 = created_at row1 /\
    id row2 = id row1 /\
    (slot (p_entrant_index pl1) (device_id_from_request req1) db = [] ->
       created_at row2 = now1).
Proof.
  intros Hu Hp1 Ha1 Hp2 Ha2 He Hd.
  destruct (rate_twice now1 now2 req1 req2 db pl1 pl2 Hu Hp1 Ha1 Hp2 Ha2 He Hd)
    as (db1 & db2 & row1 & R1 & R2 & S1 & S2 & _ & Hnew & _).
  exists db1, db2, row1,
    (set_scores (p_taste pl2) (p_presentation pl2) (p_easy pl2)
       (p_judge pl2) row1).
  repeat split; auto.
Qed.

Lemma rate_resubmission_overwrites_in_place_witness :
  exists db1 db2 row1 row2,
    api_rate noon first_vote init_db = (rate_ok, db1) /\
    api_rate later second_vote db1 = (rate_ok, db2) /\
    slot 0 "d1" db1 = [row1] /\
    slot 0 "d1" db2 = [row2] /\
    taste row2 = 1 /\ presentation row2 = 2 /\ easy row2 = 4 /\
    judge row2 = Some "Bob" /\
    created_at row2 = created_at row1 /\
    id row2 = id row1 /\
    (slot 0 "d1" init_db = [] -> created_at row2 = noon).
Proof.
  apply (rate_resubmission_overwrites_in_place noon later first_vote
           second_vote init_db
           (Payload 0 5 4 3 (Some "Ann")) (Payload 0 1 2 4 (Some "Bob"))).
  - constructor.
  - reflexivity.
  - unfold acceptable; simpl; lia.
  - reflexivity.
  - unfold acceptable; simpl; lia.
  - reflexivity.
  - reflexivity.
Defined.



(* ------------------------------------------------------------------ *)
(** ** Device identity *)

Lemma device_id_without_cookie req :
  no_device_cookie req -> device_id_from_request req = "anon".
Proof. unfold no_device_cookie, device_id_from_request. now intros ->. Qed.

(** A request that carries a non-empty cookie is identified by it. *)
Lemma device_id_with_cookie req d :
  dict_get (cookies req) "device_id" = Some d -> d <> "" ->
  device_id_from_request req = d.
Proof.
  unfold device_id_from_request. intros -> Hd.
  destruct (String.eqb d "") eqn:E; [|reflexivity].
  apply String.eqb_eq in E. contradiction.
Qed.

(** C9, as the claim words it, fails: the identifier of a request without
    the cookie is not the string the claim names. *)
Lemma device_sentinel_is_not_anonymous :
  no_device_cookie cookieless_vote /\
  device_id_from_request cookieless_vote <> "anonymous".
Proof. split; [reflexivity|discriminate]. Qed.

(** C9, amended. A request without the device cookie is identified as
    "anon"; so two such clients rating the same entrant write the same slot
    (the second overwrites the first, no row is added), and any client
    without the cookie reads that rating back as its own. *)
Theorem cookieless_devices_share_anon_slot
  now1 now2 req1 req2 query db pl1 pl2 :
  no_device_cookie req1 -> no_device_cookie req2 -> no_device_cookie query ->
  unique_keys (rows db) ->
  parse_payload (request_data req1) = Some pl1 -> acceptable pl1 ->
  parse_payload (request_data req2) = Some pl2 -> acceptable pl2 ->
  p_entrant_index pl2 = p_entrant_index pl1 ->
  int_of_str (entrant_index_arg query) = Some (p_entrant_index pl1) ->
  device_id_from_request req1 = "anon" /\
  device_id_from_request req2 = "anon" /\
  device_id_from_request query = "anon" /\
  exists db1 db2 row,
    api_rate now1 req1 db = (rate_ok, db1) /\
    api_rate now2 req2 db1 = (rate_ok, db2) /\
    slot (p_entrant_index pl1) "anon" db2 = [row] /\
    taste row = p_taste pl2 /\ presentation row = p_presentation pl2 /\
    easy row = p_easy pl2 /\ judge row = p_judge pl2 /\
    List.length (rows db2) = List.length (rows db1) /\
    api_my_rating query db2 =
      Resp (MyRating (Some (RatingView (p_taste pl2) (p_presentation pl2)
                              (p_easy pl2) (p_judge pl2)))) 200.
Proof.
  intros N1 N2 Nq Hu Hp1 Ha1 Hp2 Ha2 He Hq.
  pose proof (device_id_without_cookie _ N1) as D1.
  pose proof (device_id_without_cookie _ N2) as D2.
  pose proof (device_id_without_cookie _ Nq) as Dq.
  repeat (split; [assumption|]).
  assert (Hd : device_id_from_request req2 = device_id_from_request req1)
    by congruence.
  destruct (rate_twice now1 now2 req1 req2 db pl1 pl2 Hu Hp1 Ha1 Hp2 Ha2 He Hd)
    as (db1 & db2 & row1 & R1 & R2 & S1 & S2 & Hlen & _).
  rewrite D1 in S2.
  exists db1, db2, (set_scores (p_taste pl2) (p_presentation pl2)
                      (p_easy pl2) (p_judge pl2) row1).
  repeat split; auto.
  unfold api_my_rating. rewrite Hq, Dq.
  destruct Ha1 as (Hv & _).
  rewrite (proj2 (valid_entrant_iff _) Hv).
  simpl. unfold select_own. unfold slot in S2.
  destruct (find (has_key (p_entrant_index pl1) "anon") (rows db2)) as [r|] eqn:F.
  - assert (In r [set_scores (p_taste pl2) (p_presentation pl2)
                    (p_easy pl2) (p_judge pl2) row1]) as Hin.
    { rewrite <- S2. apply filter_In. apply find_some in F. exact F. }
    destruct Hin as [<-|[]]. reflexivity.
  - exfalso.
    assert (In (set_scores (p_taste pl2) (p_presentation pl2)
                  (p_easy pl2) (p_judge pl2) row1)
               (filter (has_key (p_entrant_index pl1) "anon") (rows db2))) as Hin
      by (rewrite S2; now left).
    apply filter_In in Hin. destruct Hin as [Hin Hk].
    pose proof (find_none _ _ F _ Hin) as Hn. congruence.
Qed.

Lemma cookieless_devices_share_anon_slot_witness :
  device_id_from_request cookieless_vote = "anon" /\
  device_id_from_request other_cookieless_vote = "anon" /\
  device_id_from_request (own_rating_query [] "3") = "anon" /\
  exists db1 db2 row,
    api_rate noon cookieless_vote init_db = (rate_ok, db1) /\
    api_rate later other_cookieless_vote db1 = (rate_ok, db2) /\
    slot 3 "anon" db2 = [row] /\
    taste row = 2 /\ presentation row = 1 /\ easy row = 2 /\
    judge row = Some "Bob" /\
    List.length (rows db2) = List.length (rows db1) /\
    api_my_rating (own_rating_query [] "3") db2 =
      Resp (MyRating (Some (RatingView 2 1 2 (Some "Bob")))) 200.
Proof.
  apply (cookieless_devices_share_anon_slot noon later cookieless_vote
           other_cookieless_vote (own_rating_query [] "3") init_db
           (Payload 3 5 5 5 (Some "Ann")) (Payload 3 2 1 2 (Some "Bob")));
    try reflexivity.
  - constructor.
  - unfold acceptable; simpl; lia.
  - unfold acceptable; simpl; lia.
Defined.

(* ------------------------------------------------------------------ *)
(** ** Coercion of the submitted scores *)


(** [trunc] drops the fractional part: the result is the integer of largest
    magnitude that does not pass the float, on the float's side of zero. *)
Lemma trunc_toward_zero m e :
  e < 0 ->
  let n := trunc (F64 m e) in
  Z.abs n * 2 ^ (- e) <= Z.abs m < (Z.abs n + 1) * 2 ^ (- e) /\
  0 <= n * m.
Proof.
  intros He. unfold trunc. simpl.
  replace (0 <=? e) with false by (symmetry; apply Z.leb_gt; lia).
  assert (Hd : 0 < 2 ^ (- e)) by (apply Z.pow_pos_nonneg; lia).
  set (d := 2 ^ (- e)) in *.
  destruct (Z.le_gt_cases 0 m) as [Hm|Hm].
  - rewrite Z.quot_div_nonneg by lia.
    pose proof (Z.div_mod m d ltac:(lia)) as Hdm.
    pose proof (Z.mod_pos_bound m d Hd) as Hb.
    assert (0 <= m / d) by (apply Z.div_pos; lia).
    rewrite (Z.abs_eq (m / d)), (Z.abs_eq m) by lia.
    set (q := m / d) in *.
    split; [split|]; nia.
  - assert (Hq : Z.quot m d = - ((- m) / d)).
    { rewrite <- Z.quot_div_nonneg by lia. rewrite Z.quot_opp_l by lia. lia. }
    rewrite Hq.
    pose proof (Z.div_mod (- m) d ltac:(lia)) as Hdm.
    pose proof (Z.mod_pos_bound (- m) d Hd) as Hb.
    assert (0 <= (- m) / d) by (apply Z.div_pos; lia).
    rewrite Z.abs_opp, (Z.abs_eq (- m / d)), (Z.abs_neq m) by lia.
    set (q := - m / d) in *.
    split; [split|]; nia.
Qed.

Example trunc_4_7 : trunc f_4_7 = 4.
Proof. reflexivity. Qed.

Example trunc_minus_half : trunc f_minus_half = 0.
Proof. reflexivity. Qed.

(** The range check sees the integer part: 5.5 is stored as 5, 0.5 counts
    as 0 and is refused; a body that is not an object is an invalid
    payload. *)
Example rate_float_scores :
  (exists db,
     api_rate noon
       (rate_request (with_device "d1")
          (scores_body (PyInt 0) (PyFloat (Finite f_5_5)) (PyInt 4) (PyInt 3)
             "Ann")) init_db = (rate_ok, db) /\
     map taste (rows db) = [5]) /\
  api_rate noon
    (rate_request (with_device "d1")
       (scores_body (PyInt 0) (PyFloat (Finite f_half)) (PyInt 4) (PyInt 3)
          "Ann")) init_db = (rate_error scores_message, init_db) /\
  api_rate noon (rate_request (with_device "d1") (PyList [PyInt 1])) init_db
  = (rate_error "Invalid payload", init_db).
Proof. split; [eexists; split; reflexivity|split; reflexivity]. Qed.




(* ------------------------------------------------------------------ *)
(** ** /api/my-rating *)

(** [fetchone] of the own-rating SELECT: a stored row of the slot, or
    nothing when the slot is empty. *)
Lemma select_own_spec ei dev db :
  match select_own ei dev db with
  | Some v => exists r, In r (slot ei dev db) /\ v = view_of r
  | None => slot ei dev db = []
  end.
Proof.
  unfold select_own, slot.
  destruct (find (has_key ei dev) (rows db)) as [r|] eqn:F.
  - exists r. split; [|reflexivity]. apply filter_In.
    apply find_some in F. exact F.
  - apply filter_nil_iff. intros x Hx. exact (find_none _ _ F x Hx).
Qed.



Example my_rating_reads_back :
  api_my_rating own_rating_reader one_vote_db =
  Resp (MyRating (Some (RatingView 5 4 3 (Some "Ann")))) 200.
Proof. reflexivity. Qed.

Example my_rating_missing_index_is_null :
  api_my_rating (Request GET [] [] [] None) one_vote_db =
  Resp (MyRating None) 200.
Proof. reflexivity. Qed.

Example my_rating_bad_index :
  api_my_rating (own_rating_query [] "one") one_vote_db =
  Resp (MyError "Bad entrant index") 400.
Proof. reflexivity. Qed.

(* ------------------------------------------------------------------ *)
(** ** ORDER BY *)

Section OrderByFacts.
Context {A : Type} (le : A -> A -> bool).

Lemma insert_row_perm x l : Permutation (x :: l) (insert_row le x l).
Proof.
  induction l as [|y l IH]; simpl.
  - apply Permutation_refl.
  - destruct (le x y).
    + apply Permutation_refl.
    + eapply perm_trans; [apply perm_swap|]. apply perm_skip. exact IH.
Qed.

(** The sorted result holds the same rows, each as often as before. *)
Lemma order_by_perm l : Permutation l (order_by le l).
Proof.
  induction l as [|x l IH]; simpl.
  - constructor.
  - eapply perm_trans; [apply perm_skip; exact IH|]. apply insert_row_perm.
Qed.

Lemma order_by_length l : List.length (order_by le l) = List.length l.
Proof. symmetry. apply Permutation_length, order_by_perm. Qed.

Lemma order_by_Forall (P : A -> Prop) l : Forall P l -> Forall P (order_by le l).
Proof.
  intros H. eapply Permutation_Forall; [apply order_by_perm|exact H].
Qed.

(** Any two rows compare one way or the other. *)
Hypothesis le_total : forall x y, le x y = false -> le y x = true.

Let ordered (x y : A) : Prop := le x y = true.

Lemma insert_row_sorted x l :
  Sorted ordered l -> Sorted ordered (insert_row le x l).
Proof.
  induction l as [|y l IH]; simpl; intros Hs.
  - constructor; constructor.
  - destruct (le x y) eqn:E.
    + constructor; [exact Hs|]. constructor. exact E.
    + inversion Hs as [|? ? Hs' Hhd]; subst.
      constructor; [apply IH; exact Hs'|].
      destruct l as [|z l]; simpl.
      * constructor. apply le_total. exact E.
      * destruct (le x z).
        -- constructor. apply le_total. exact E.
        -- inversion Hhd; subst. constructor. assumption.
Qed.

Lemma order_by_sorted l : Sorted ordered (order_by le l).
Proof.
  induction l as [|x l IH]; simpl.
  - constructor.
  - apply insert_row_sorted. exact IH.
Qed.

End OrderByFacts.

Lemma map_raise_Forall2 {A B} (f : A -> option B) l out :
  map_raise f l = Some out -> Forall2 (fun x y => f x = Some y) l out.
Proof.
  revert out. induction l as [|x l IH]; simpl; intros out H.
  - inversion H. constructor.
  - destruct (f x) as [y|] eqn:E; [|discriminate].
    destruct (map_raise f l) as [ys|]; simpl in H; [|discriminate].
    inversion H; subst. constructor; auto.
Qed.

Lemma map_raise_total {A B} (f : A -> option B) l :
  Forall (fun x => f x <> None) l -> exists out, map_raise f l = Some out.
Proof.
  induction 1 as [|x l Hx _ IH]; simpl.
  - eexists; reflexivity.
  - destruct (f x) as [y|]; [|congruence].
    destruct IH as [ys ->]. eexists; reflexivity.
Qed.

(** Indexing [ENTRANTS] with a valid index does not raise. *)
Lemma getitem_valid ei :
  valid_entrant ei = true -> exists nm, getitem ENTRANTS ei = Some nm.
Proof.
  intros Hv. unfold getitem.
  unfold valid_entrant in Hv. rewrite Hv.
  apply valid_entrant_iff in Hv.
  destruct (nth_error ENTRANTS (Z.to_nat ei)) as [nm|] eqn:E; [eauto|].
  apply nth_error_None in E. lia.
Qed.

(* ------------------------------------------------------------------ *)
(** ** /export.csv *)

Lemma by_created_at_total a b :
  by_created_at a b = false -> by_created_at b a = true.
Proof.
  unfold by_created_at. intros H.
  destruct (String.leb_total (created_at a) (created_at b)); congruence.
Qed.

Lemma generate_rows_valid rs :
  Forall row_ok rs ->
  exists data,
    generate_rows rs = Stream data true /\ Forall2 csv_line_of rs data.
Proof.
  induction 1 as [|r rs [Hv _] _ IH]; simpl.
  - exists []. split; [reflexivity|constructor].
  - destruct IH as (data & -> & HF).
    destruct (getitem_valid _ Hv) as [nm Hn].
    unfold csv_fields. rewrite Hn. simpl chunks. simpl finished.
    eexists. split; [reflexivity|]. constructor; [|exact HF].
    exists nm. split; [exact Hn|reflexivity].
Qed.

Lemma generate_starts_with_header rs :
  exists rest, chunks (generate rs) = csv_header_line :: rest.
Proof. unfold generate. simpl. eexists. reflexivity. Qed.

(** C8. The export starts with the fixed header line, also when the table
    is empty; after it comes one line per stored rating, for the rows taken
    in ascending order of their creation timestamp, and the stream runs to
    its end. *)
Theorem export_csv_lists_every_rating db :
  Forall row_ok (rows db) ->
  (rows db = [] -> export_csv db = Stream [csv_header_line] true) /\
  exists sorted data,
    export_csv db = Stream (csv_header_line :: data) true /\
    Permutation (rows db) sorted /\
    Sorted created_before sorted /\
    Forall2 csv_line_of sorted data /\
    List.length data = List.length (rows db).
Proof.
  intros Hok. split.
  - intros E. unfold export_csv, export_query. rewrite E. reflexivity.
  - unfold export_csv, export_query, generate.
    assert (Hs : Forall row_ok (order_by by_created_at (rows db)))
      by (apply order_by_Forall; exact Hok).
    destruct (generate_rows_valid _ Hs) as (data & -> & HF).
    exists (order_by by_created_at (rows db)), data.
    repeat split.
    + apply order_by_perm.
    + apply (order_by_sorted by_created_at by_created_at_total).
    + exact HF.
    + rewrite <- (Forall2_length HF). apply order_by_length.
Qed.

Lemma export_csv_lists_every_rating_witness :
  (rows two_votes_db = [] ->
   export_csv two_votes_db = Stream [csv_header_line] true) /\
  exists sorted data,
    export_csv two_votes_db = Stream (csv_header_line :: data) true /\
    Permutation (rows two_votes_db) sorted /\
    Sorted created_before sorted /\
    Forall2 csv_line_of sorted data /\
    List.length data = List.length (rows two_votes_db).
Proof.
  apply (export_csv_lists_every_rating two_votes_db).
  repeat constructor.
Defined.

Example export_two_votes :
  chunks (export_csv two_votes_db) =
  [ csv_header_line;
    "2," ++ quote_plain "Yesenia" ++ ",1,2,3," ++ quote_plain "" ++ ","
      ++ quote_plain "d2" ++ ",2025-02-09 12:00:00" ++ newline;
    "1," ++ quote_plain "Javier" ++ ",5,4,3," ++ quote_plain "Ann" ++ ","
      ++ quote_plain "d1" ++ ",2025-02-09 12:30:00" ++ newline ].
Proof. reflexivity. Qed.

Example export_empty_table :
  export_csv init_db = Stream [csv_header_line] true.
Proof. reflexivity. Qed.

(** *** Quoting of the text fields *)

Lemma undouble_escaped s :
  undouble (replace_char (ascii_of_nat 34) (dquote ++ dquote) s) = s.
Proof.
  induction s as [|c s IH]; [reflexivity|].
  cbn [replace_char]. destruct (Ascii.eqb c (ascii_of_nat 34)) eqn:E.
  - apply Ascii.eqb_eq in E. subst c. cbn. f_equal. exact IH.
  - destruct s as [|c' s'].
    + reflexivity.
    + cbn [undouble]. rewrite E. cbn [andb].
      remember (replace_char (ascii_of_nat 34) (dquote ++ dquote) (String c' s'))
        as x eqn:Hx.
      destruct x as [|c2 x'].
      * cbn [replace_char] in Hx.
        destruct (Ascii.eqb c' (ascii_of_nat 34)); discriminate.
      * f_equal. exact IH.
Qed.

Lemma append_length a b :
  String.length (a ++ b) = (String.length a + String.length b)%nat.
Proof. induction a as [|c a IH]; simpl; [reflexivity|now rewrite IH]. Qed.

Lemma append_inj_r a b x : a ++ x = b ++ x -> a = b.
Proof.
  revert b. induction a as [|c a IH]; intros [|c' b]; simpl; intros H.
  - reflexivity.
  - apply (f_equal String.length) in H. simpl in H.
    rewrite append_length in H. lia.
  - apply (f_equal String.length) in H. simpl in H.
    rewrite append_length in H. lia.
  - inversion H; subst. f_equal. now apply IH.
Qed.

(** X17. Doubling the quotes loses nothing: two texts (entrant names or
    judges) whose quoted CSV fields are equal are the same text. *)
Lemma quote_escaped_injective s1 s2 :
  quote_escaped s1 = quote_escaped s2 -> s1 = s2.
Proof.
  unfold quote_escaped. intros H.
  rewrite <- (undouble_escaped s1), <- (undouble_escaped s2).
  f_equal. simpl in H. inversion H as [H'].
  exact (append_inj_r _ _ _ H').
Qed.

(** C5 at a device identifier that holds a double quote: the entrant name
    and the judge are emitted with their quotes doubled, the device
    identifier is emitted between quotes as it is, its quote not doubled. *)
Theorem export_device_id_quote_not_doubled :
  csv_fields quoted_row =
    Some [ "1"; quote_escaped "Javier"; "5"; "4"; "3";
           quote_escaped judge_with_quote;
           quote_plain device_with_quote; noon ] /\
  quote_escaped judge_with_quote =
    dquote ++ "say " ++ dquote ++ dquote ++ "hi" ++ dquote ++ dquote ++ dquote /\
  quote_plain device_with_quote = dquote ++ "a" ++ dquote ++ "b" ++ dquote /\
  quote_escaped device_with_quote =
    dquote ++ "a" ++ dquote ++ dquote ++ "b" ++ dquote /\
  quote_plain device_with_quote <> quote_escaped device_with_quote.
Proof. repeat split; try reflexivity. discriminate. Qed.

Lemma quote_escaped_injective_witness : judge_with_quote = judge_with_quote.
Proof.
  apply (quote_escaped_injective judge_with_quote judge_with_quote).
  reflexivity.
Defined.

(** A device identifier with a quote reaches the table through [api_rate]. *)
Example quoted_device_is_stored :
  exists db',
    api_rate noon
      (rate_request (with_device device_with_quote)
         (scores_body (PyInt 0) (PyInt 5) (PyInt 4) (PyInt 3) judge_with_quote))
      init_db = (rate_ok, db') /\
    rows db' = [quoted_row].
Proof. eexists. split; reflexivity. Qed.

(* ------------------------------------------------------------------ *)
(** ** GROUP BY entrant_index *)

Lemma insert_key_In k ks x : In x (insert_key k ks) <-> x = k \/ In x ks.
Proof.
  induction ks as [|k' ks IH]; simpl.
  - intuition.
  - destruct (k <? k') eqn:E1; simpl.
    + intuition.
    + destruct (k =? k') eqn:E2; simpl.
      * apply Z.eqb_eq in E2. subst. intuition.
      * rewrite IH. intuition.
Qed.

Lemma insert_key_sorted k ks :
  StronglySorted Z.lt ks -> StronglySorted Z.lt (insert_key k ks).
Proof.
  induction ks as [|k' ks IH]; simpl; intros Hs.
  - constructor; constructor.
  - inversion Hs as [|? ? Hs' Hall]; subst.
    destruct (k <? k') eqn:E1.
    + apply Z.ltb_lt in E1. constructor; [exact Hs|].
      constructor; [exact E1|].
      eapply Forall_impl; [|exact Hall]. intros; simpl in *; lia.
    + destruct (k =? k') eqn:E2; [exact Hs|].
      apply Z.ltb_ge in E1. apply Z.eqb_neq in E2.
      constructor; [apply IH; exact Hs'|].
      apply Forall_forall. intros x Hx. apply insert_key_In in Hx.
      destruct Hx as [->|Hx]; [lia|].
      rewrite Forall_forall in Hall. now apply Hall.
Qed.

Lemma keys_of_snoc rs r :
  keys_of (rs ++ [r]) = insert_key (entrant_index r) (keys_of rs).
Proof. unfold keys_of. now rewrite fold_left_app. Qed.

Lemma keys_of_sorted rs : StronglySorted Z.lt (keys_of rs).
Proof.
  induction rs as [|r rs IH] using rev_ind.
  - constructor.
  - rewrite keys_of_snoc. now apply insert_key_sorted.
Qed.

Lemma keys_of_In rs k :
  In k (keys_of rs) <-> exists r, In r rs /\ entrant_index r = k.
Proof.
  induction rs as [|r rs IH] using rev_ind.
  - simpl. split; [tauto|]. intros (r & [] & _).
  - rewrite keys_of_snoc, insert_key_In, IH. split.
    + intros [->|(x & Hx & He)].
      * exists r. split; [apply in_or_app; right; now left|reflexivity].
      * exists x. split; [apply in_or_app; now left|exact He].
    + intros (x & Hx & He). apply in_app_or in Hx.
      destruct Hx as [Hx|[<-|[]]]; [right; eauto|left; auto].
Qed.

Lemma keys_of_nonempty rs k :
  In k (keys_of rs) <-> filter (of_entrant k) rs <> [].
Proof.
  rewrite keys_of_In. split.
  - intros (r & Hr & He) Hf. rewrite filter_nil_iff in Hf.
    specialize (Hf r Hr). unfold of_entrant in Hf. rewrite He, Z.eqb_refl in Hf.
    discriminate.
  - intros Hf. destruct (filter (of_entrant k) rs) as [|r l] eqn:E;
      [congruence|].
    assert (Hin : In r (filter (of_entrant k) rs)) by (rewrite E; now left).
    apply filter_In in Hin. destruct Hin as [Hin Hk].
    exists r. split; [exact Hin|]. now apply Z.eqb_eq in Hk.
Qed.

Lemma strongly_sorted_lt_NoDup ks : StronglySorted Z.lt ks -> NoDup ks.
Proof.
  induction 1 as [|k ks _ IH Hall]; constructor; [|exact IH].
  intros Hin. rewrite Forall_forall in Hall. specialize (Hall k Hin). lia.
Qed.

(** One more row: it joins (or opens) the group of its entrant, the other
    groups stay. *)
Lemma add_to_group_groups r rs ks :
  StronglySorted Z.lt ks ->
  (~ In (entrant_index r) ks -> filter (of_entrant (entrant_index r)) rs = []) ->
  add_to_group r (map (fun k => (k, filter (of_entrant k) rs)) ks) =
  map (fun k => (k, filter (of_entrant k) (rs ++ [r])))
    (insert_key (entrant_index r) ks).
Proof.
  assert (Hother : forall k, k <> entrant_index r ->
            filter (of_entrant k) (rs ++ [r]) = filter (of_entrant k) rs).
  { intros k Hk. rewrite filter_app_single. unfold of_entrant at 2.
    replace (entrant_index r =? k) with false
      by (symmetry; apply Z.eqb_neq; congruence).
    apply app_nil_r. }
  assert (Hown : filter (of_entrant (entrant_index r)) (rs ++ [r]) =
                 (filter (of_entrant (entrant_index r)) rs ++ [r])%list).
  { rewrite filter_app_single. unfold of_entrant at 2.
    now rewrite Z.eqb_refl. }
  assert (Htail : forall l, Forall (fun k => k <> entrant_index r) l ->
            map (fun k => (k, filter (of_entrant k) rs)) l =
            map (fun k => (k, filter (of_entrant k) (rs ++ [r]))) l).
  { intros l Hl. apply map_ext_in. intros k Hk.
    rewrite Forall_forall in Hl. now rewrite (Hother k (Hl k Hk)). }
  induction ks as [|k ks IH]; simpl; intros Hs Hnew.
  - rewrite Hown, Hnew by tauto. reflexivity.
  - inversion Hs as [|? ? Hs' Hall]; subst.
    destruct (entrant_index r <? k) eqn:E1.
    + apply Z.ltb_lt in E1.
      assert (Hne : Forall (fun x => x <> entrant_index r) (k :: ks)).
      { constructor; [lia|]. eapply Forall_impl; [|exact Hall].
        intros; simpl in *; lia. }
      simpl. rewrite Hown, Hnew.
      * simpl. f_equal. exact (Htail (k :: ks) Hne).
      * intros Hin. rewrite Forall_forall in Hne.
        exact (Hne _ Hin eq_refl).
    + destruct (entrant_index r =? k) eqn:E2.
      * apply Z.eqb_eq in E2. subst k. simpl. rewrite Hown. f_equal.
        apply Htail. eapply Forall_impl; [|exact Hall].
        intros; simpl in *; lia.
      * apply Z.eqb_neq in E2. simpl. rewrite (Hother k) by congruence.
        f_equal. apply IH; [exact Hs'|].
        intros Hn. apply Hnew. intros [Hk|Hin]; [congruence|contradiction].
Qed.

(** The groups, in closed form: one per entrant index that occurs, in
    ascending order of the index, holding the rows of that entrant. *)
Lemma group_by_entrant_spec rs :
  group_by_entrant rs =
  map (fun k => (k, filter (of_entrant k) rs)) (keys_of rs).
Proof.
  induction rs as [|r rs IH] using rev_ind.
  - reflexivity.
  - unfold group_by_entrant in *. rewrite fold_left_app. simpl.
    rewrite IH, keys_of_snoc.
    apply add_to_group_groups; [apply keys_of_sorted|].
    intros Hn. destruct (filter (of_entrant (entrant_index r)) rs) eqn:E;
      [reflexivity|].
    exfalso. apply Hn. apply keys_of_nonempty. congruence.
Qed.

(* ------------------------------------------------------------------ *)
(** ** /api/leaderboard: shape and order *)

Lemma order_by_map {A B} (f : A -> B) (le : B -> B -> bool) l :
  order_by le (map f l) = map f (order_by (fun a b => le (f a) (f b)) l).
Proof.
  assert (Hins : forall x l,
            insert_row le (f x) (map f l) =
            map f (insert_row (fun a b => le (f a) (f b)) x l)).
  { intros x l0. induction l0 as [|y l0 IH]; simpl; [reflexivity|].
    destruct (le (f x) (f y)); simpl; [reflexivity|now rewrite IH]. }
  induction l as [|x l IH]; simpl; [reflexivity|].
  now rewrite IH, Hins.
Qed.

Lemma f64_leb_total x y : F64.leb x y = false -> F64.leb y x = true.
Proof.
  unfold F64.leb. rewrite (Z.min_comm (expo y) (expo x)).
  rewrite Z.leb_gt, Z.leb_le. lia.
Qed.

Lemma real_leb_total x y : real_leb x y = false -> real_leb y x = true.
Proof.
  destruct x as [a|], y as [b|]; simpl; try congruence.
  apply f64_leb_total.
Qed.

Lemma ranks_before_total db i j :
  ranks_before db i j = false -> ranks_before db j i = true.
Proof. unfold ranks_before. apply real_leb_total. Qed.

Lemma leaderboard_query_spec db :
  leaderboard_query db = map (agg_of db) (ranking db).
Proof.
  unfold leaderboard_query, ranking. rewrite group_by_entrant_spec, map_map.
  rewrite (order_by_map (fun k => aggregate (k, filter (of_entrant k) (rows db)))).
  reflexivity.
Qed.

Lemma ranking_NoDup db : NoDup (ranking db).
Proof.
  eapply Permutation_NoDup; [apply order_by_perm|].
  apply strongly_sorted_lt_NoDup, keys_of_sorted.
Qed.

(** An entrant is ranked exactly when a rating is stored for it. *)
Lemma ranking_In db ei : In ei (ranking db) <-> ratings_of ei db <> [].
Proof.
  unfold ranking. rewrite <- (keys_of_nonempty (rows db) ei). split; intros H.
  - eapply Permutation_in; [apply Permutation_sym, order_by_perm|exact H].
  - eapply Permutation_in; [apply order_by_perm|exact H].
Qed.

Lemma ranking_sorted db :
  Sorted (fun i j => ranks_before db i j = true) (ranking db).
Proof. apply (order_by_sorted (ranks_before db) (ranks_before_total db)). Qed.

Lemma ranking_valid db ei :
  Forall row_ok (rows db) -> In ei (ranking db) -> valid_entrant ei = true.
Proof.
  intros Hok Hin. apply ranking_In in Hin.
  apply (keys_of_nonempty (rows db) ei) in Hin. apply keys_of_In in Hin.
  destruct Hin as (r & Hr & <-). rewrite Forall_forall in Hok.
  exact (proj1 (Hok r Hr)).
Qed.

Lemma lb_entry_of_agg db ei x :
  lb_entry_of (agg_of db ei) = Some x -> entry_for db ei x.
Proof.
  unfold lb_entry_of, agg_of, aggregate. simpl.
  destruct (getitem ENTRANTS ei) as [nm|] eqn:G; [|discriminate].
  intros H. inversion H; subst. unfold entry_for. simpl.
  repeat split; try reflexivity. exact G.
Qed.

(** The reply of the leaderboard: one entry per ranked entrant, in the
    order of the ranking. *)
Lemma api_leaderboard_spec db :
  Forall row_ok (rows db) ->
  exists entries,
    api_leaderboard db = Resp entries 200 /\
    Forall2 (entry_for db) (ranking db) entries.
Proof.
  intros Hok. unfold api_leaderboard. rewrite leaderboard_query_spec.
  assert (Hall : Forall (fun ei => valid_entrant ei = true) (ranking db)).
  { apply Forall_forall. intros ei. now apply ranking_valid. }
  induction Hall as [|ei l Hv _ IH]; simpl.
  - exists []. split; [reflexivity|constructor].
  - destruct IH as (entries & IH1 & IH2).
    destruct (getitem_valid ei Hv) as [nm Hnm].
    destruct (lb_entry_of (agg_of db ei)) as [x|] eqn:E.
    + destruct (map_raise lb_entry_of (map (agg_of db) l)) as [out|];
        [|discriminate].
      inversion IH1; subst. eexists. split; [reflexivity|].
      constructor; [now apply lb_entry_of_agg|exact IH2].
    + unfold lb_entry_of, agg_of, aggregate in E. simpl in E.
      rewrite Hnm in E. discriminate.
Qed.

Lemma Forall2_In_r {A B} (R : A -> B -> Prop) l l' y :
  Forall2 R l l' -> In y l' -> exists x, In x l /\ R x y.
Proof.
  induction 1 as [|a b l l' Hab _ IH]; simpl; [tauto|].
  intros [<-|Hy].
  - exists a. auto.
  - destruct (IH Hy) as (x & Hx & Hr). exists x. auto.
Qed.

Lemma Forall2_In_l {A B} (R : A -> B -> Prop) l l' x :
  Forall2 R l l' -> In x l -> exists y, In y l' /\ R x y.
Proof.
  induction 1 as [|a b l l' Hab _ IH]; simpl; [tauto|].
  intros [<-|Hx].
  - exists b. auto.
  - destruct (IH Hx) as (y & Hy & Hr). exists y. auto.
Qed.

Lemma ENTRANTS_NoDup : NoDup ENTRANTS.
Proof.
  unfold ENTRANTS.
  repeat (constructor; [simpl; intuition discriminate|]). constructor.
Qed.

(** Two valid indices with the same name are the same index. *)
Lemma getitem_ENTRANTS_inj i j nm :
  valid_entrant i = true -> valid_entrant j = true ->
  getitem ENTRANTS i = Some nm -> getitem ENTRANTS j = Some nm -> i = j.
Proof.
  intros Hi Hj. unfold getitem.
  unfold valid_entrant in Hi, Hj. rewrite Hi, Hj.
  apply andb_true_iff in Hi, Hj.
  rewrite Z.leb_le, Z.ltb_lt in Hi, Hj.
  intros Gi Gj.
  assert (E : Z.to_nat i = Z.to_nat j).
  { apply (proj1 (NoDup_nth_error ENTRANTS) ENTRANTS_NoDup); [lia|congruence]. }
  lia.
Qed.

(* ------------------------------------------------------------------ *)
(** ** Binary64 quotients and two-place rounding *)

Lemma pow2_split x y : 0 <= x -> 0 <= y -> 2 ^ (x + y) = 2 ^ x * 2 ^ y.
Proof. intros. apply Z.pow_add_r; lia. Qed.

Lemma pow2_pos x : 0 <= x -> 0 < 2 ^ x.
Proof. intros. apply Z.pow_pos_nonneg; lia. Qed.

(** [ilog2_ratio a b] is the binade of [a / b]:
    [2^k <= a / b < 2^(k+1)]. *)
Lemma ilog2_ratio_spec a b :
  0 < a -> 0 < b ->
  F64.pow2_le_ratio (F64.ilog2_ratio a b) a b = true /\
  F64.pow2_le_ratio (F64.ilog2_ratio a b + 1) a b = false.
Proof.
  intros Ha Hb. unfold F64.ilog2_ratio.
  pose proof (Z.log2_spec a Ha) as [La1 La2].
  pose proof (Z.log2_spec b Hb) as [Lb1 Lb2].
  pose proof (Z.log2_nonneg a) as Na. pose proof (Z.log2_nonneg b) as Nb.
  set (la := Z.log2 a) in *. set (lb := Z.log2 b) in *.
  replace (Z.succ la) with (la + 1) in La2 by lia.
  replace (Z.succ lb) with (lb + 1) in Lb2 by lia.
  rewrite pow2_split in La2, Lb2 by lia. change (2 ^ 1) with 2 in *.
  pose proof (pow2_pos la Na) as Pa. pose proof (pow2_pos lb Nb) as Pb.
  destruct (F64.pow2_le_ratio (la - lb) a b) eqn:E.
  - split; [exact E|]. unfold F64.pow2_le_ratio.
    destruct (0 <=? la - lb + 1) eqn:S.
    + apply Z.leb_le in S. apply Z.leb_gt.
      destruct (Z.le_gt_cases lb la).
      * replace (la - lb + 1) with ((la - lb) + 1) by lia.
        rewrite pow2_split by lia. change (2 ^ 1) with 2.
        assert (2 ^ la = 2 ^ (la - lb) * 2 ^ lb)
          by (rewrite <- pow2_split by lia; f_equal; lia).
        pose proof (pow2_pos (la - lb) ltac:(lia)). nia.
      * assert (la - lb + 1 = 0) as -> by lia. simpl.
        assert (2 ^ lb = 2 ^ (lb - la) * 2 ^ la)
          by (rewrite <- pow2_split by lia; f_equal; lia).
        assert (lb - la = 1) as Hx by lia. rewrite Hx in H0.
        change (2 ^ 1) with 2 in H0. lia.
    + apply Z.leb_gt in S. apply Z.leb_gt.
      assert (2 ^ lb = 2 ^ (- (la - lb + 1)) * 2 ^ (la + 1))
        by (rewrite <- pow2_split by lia; f_equal; lia).
      rewrite pow2_split in H by lia. change (2 ^ 1) with 2 in H.
      pose proof (pow2_pos (- (la - lb + 1)) ltac:(lia)). nia.
  - split; [|replace (la - lb - 1 + 1) with (la - lb) by lia; exact E].
    unfold F64.pow2_le_ratio.
    destruct (0 <=? la - lb - 1) eqn:S.
    + apply Z.leb_le in S. apply Z.leb_le.
      assert (2 ^ la = 2 ^ (la - lb - 1) * (2 ^ lb * 2)).
      { replace la with ((la - lb - 1) + (lb + 1)) at 1 by lia.
        rewrite pow2_split by lia. f_equal. rewrite pow2_split by lia.
        reflexivity. }
      pose proof (pow2_pos (la - lb - 1) ltac:(lia)). nia.
    + apply Z.leb_gt in S. apply Z.leb_le.
      assert (2 ^ lb * 2 = 2 ^ (- (la - lb - 1)) * 2 ^ la).
      { replace (2 ^ lb * 2) with (2 ^ (lb + 1))
          by (rewrite pow2_split by lia; reflexivity).
        rewrite <- pow2_split by lia. f_equal. lia. }
      pose proof (pow2_pos (- (la - lb - 1)) ltac:(lia)). nia.
Qed.

Lemma round_half_even_range n d lo hi :
  0 < d -> lo * d <= n <= hi * d ->
  lo <= F64.round_half_even n d <= hi.
Proof.
  intros Hd Hn. unfold F64.round_half_even.
  pose proof (Z.div_mod n d ltac:(lia)) as Hdm.
  pose proof (Z.mod_pos_bound n d Hd) as Hb.
  set (q := n / d) in *. set (r := n mod d) in *.
  assert (lo <= q) by nia.
  assert (q <= hi) by nia.
  assert (r = 0 \/ q < hi) by nia.
  destruct (2 * r <? d) eqn:E1; [lia|]. apply Z.ltb_ge in E1.
  destruct (d <? 2 * r); [lia|]. destruct (Z.even q); lia.
Qed.

(** The result has a 53-bit mantissa. *)
Lemma of_ratio_pos_canonical a b :
  0 < a -> 0 < b ->
  2 ^ 52 <= mant (F64.of_ratio_pos a b) < 2 ^ 53.
Proof.
  intros Ha Hb. unfold F64.of_ratio_pos.
  destruct (ilog2_ratio_spec a b Ha Hb) as [Hlo Hhi].
  set (k := F64.ilog2_ratio a b) in *.
  unfold F64.pow2_le_ratio in Hlo, Hhi.
  assert (Hm : 2 ^ 52 <=
               (if 0 <=? k - 52 then F64.round_half_even a (b * 2 ^ (k - 52))
                else F64.round_half_even (a * 2 ^ (- (k - 52))) b) <= 2 ^ 53).
  { destruct (0 <=? k - 52) eqn:S.
    - apply Z.leb_le in S.
      replace (0 <=? k) with true in Hlo by (symmetry; apply Z.leb_le; lia).
      replace (0 <=? k + 1) with true in Hhi by (symmetry; apply Z.leb_le; lia).
      apply Z.leb_le in Hlo. apply Z.leb_gt in Hhi.
      replace k with ((k - 52) + 52) in Hlo at 1 by lia.
      replace (k + 1) with ((k - 52) + 53) in Hhi by lia.
      rewrite pow2_split in Hlo, Hhi by lia.
      pose proof (pow2_pos (k - 52) S).
      apply round_half_even_range; nia.
    - apply Z.leb_gt in S.
      pose proof (pow2_pos (- (k - 52)) ltac:(lia)).
      apply round_half_even_range; [lia|].
      destruct (0 <=? k) eqn:S1.
      + apply Z.leb_le in S1, Hlo.
        replace (0 <=? k + 1) with true in Hhi by (symmetry; apply Z.leb_le; lia).
        apply Z.leb_gt in Hhi.
        assert (E52 : 2 ^ 52 = 2 ^ k * 2 ^ (- (k - 52)))
          by (rewrite <- pow2_split by lia; f_equal; lia).
        assert (E53 : 2 ^ 53 = 2 ^ (k + 1) * 2 ^ (- (k - 52)))
          by (rewrite <- pow2_split by lia; f_equal; lia).
        rewrite E52, E53.
        pose proof (pow2_pos k S1). pose proof (pow2_pos (k + 1) ltac:(lia)).
        nia.
      + apply Z.leb_gt in S1. apply Z.leb_le in Hlo.
        assert (E52 : 2 ^ (- (k - 52)) = 2 ^ 52 * 2 ^ (- k))
          by (rewrite <- pow2_split by lia; f_equal; lia).
        pose proof (pow2_pos (- k) ltac:(lia)).
        destruct (0 <=? k + 1) eqn:S2.
        * assert (Hk : k = -1) by (apply Z.leb_le in S2; lia).
          rewrite Hk in *.
          change (2 ^ (- -1)) with 2 in Hlo.
          change (2 ^ (-1 + 1)) with 1 in Hhi.
          change (2 ^ (- (-1 - 52))) with (2 ^ 53).
          apply Z.leb_gt in Hhi. lia.
        * apply Z.leb_gt in S2, Hhi.
          assert (E53 : 2 ^ (- (k - 52)) = 2 ^ 53 * 2 ^ (- (k + 1)))
            by (rewrite <- pow2_split by lia; f_equal; lia).
          pose proof (pow2_pos (- (k + 1)) ltac:(lia)).
          split; [rewrite E52; nia|rewrite E53; nia]. }
  destruct (_ =? 2 ^ 53) eqn:E; simpl.
  - lia.
  - apply Z.eqb_neq in E. lia.
Qed.

Lemma round_half_even_bound n d :
  0 < d -> 2 * Z.abs (F64.round_half_even n d * d - n) <= d.
Proof.
  intros Hd. unfold F64.round_half_even.
  pose proof (Z.div_mod n d ltac:(lia)) as Hdm.
  pose proof (Z.mod_pos_bound n d Hd) as Hb.
  set (q := n / d) in *. set (r := n mod d) in *.
  destruct (2 * r <? d) eqn:E1; [apply Z.ltb_lt in E1; nia|].
  apply Z.ltb_ge in E1.
  destruct (d <? 2 * r) eqn:E2; [apply Z.ltb_lt in E2; nia|].
  apply Z.ltb_ge in E2.
  destruct (Z.even q); nia.
Qed.

(** The quotients the aggregation forms: between 1 and 15. *)
Lemma ilog2_ratio_small a b :
  0 < b -> b <= a <= 15 * b -> -1 <= F64.ilog2_ratio a b <= 3.
Proof.
  intros Hb Ha. unfold F64.ilog2_ratio.
  assert (Hl1 : Z.log2 b <= Z.log2 a) by (apply Z.log2_le_mono; lia).
  assert (Hl2 : Z.log2 a <= Z.log2 b + 4).
  { replace (Z.log2 b + 4) with (Z.log2 (b * 2 ^ 4))
      by (rewrite Z.log2_mul_pow2 by lia; lia).
    apply Z.log2_le_mono. lia. }
  destruct (F64.pow2_le_ratio (Z.log2 a - Z.log2 b) a b) eqn:E; [|lia].
  split; [lia|].
  destruct (Z.eq_dec (Z.log2 a - Z.log2 b) 4) as [E4|]; [|lia].
  rewrite E4 in E. unfold F64.pow2_le_ratio in E. simpl in E.
  apply Z.leb_le in E. lia.
Qed.

Lemma of_ratio_error a b :
  0 < b -> b <= a <= 15 * b ->
  exists m e,
    F64.of_ratio a b = F64 m e /\ 48 <= - e <= 53 /\
    2 * Z.abs (m * b - a * 2 ^ (- e)) <= b.
Proof.
  intros Hb Ha. unfold F64.of_ratio.
  replace (a =? 0) with false by (symmetry; apply Z.eqb_neq; lia).
  replace (0 <? a) with true by (symmetry; apply Z.ltb_lt; lia).
  unfold F64.of_ratio_pos.
  pose proof (ilog2_ratio_small a b Hb Ha) as Hk.
  set (k := F64.ilog2_ratio a b) in *.
  replace (0 <=? k - 52) with false by (symmetry; apply Z.leb_gt; lia).
  pose proof (round_half_even_bound (a * 2 ^ (- (k - 52))) b Hb) as Hr.
  set (m := F64.round_half_even (a * 2 ^ (- (k - 52))) b) in *.
  destruct (m =? 2 ^ 53) eqn:E.
  - apply Z.eqb_eq in E. exists (2 ^ 52), (k - 52 + 1).
    split; [reflexivity|]. split; [lia|].
    replace (- (k - 52)) with (- (k - 52 + 1) + 1) in Hr by lia.
    rewrite Z.pow_add_r in Hr by lia.
    rewrite E in Hr. change (2 ^ 53) with (2 * 2 ^ 52) in Hr.
    change (2 ^ 1) with 2 in Hr. 
    set (E' := 2 ^ (- (k - 52 + 1))) in *. lia.
  - exists m, (k - 52). split; [reflexivity|]. split; [lia|exact Hr].
Qed.

Lemma hundredths_nearest a b :
  0 < b < 2 ^ 41 -> b <= a <= 15 * b ->
  2 * Z.abs (b * F64.hundredths (F64.of_ratio a b) - 100 * a) <= b.
Proof.
  intros Hb Ha.
  destruct (of_ratio_error a b ltac:(lia) Ha) as (m & e & -> & He & Hm).
  unfold F64.hundredths. simpl.
  replace (0 <=? e) with false by (symmetry; apply Z.leb_gt; lia).
  assert (HE : 2 ^ 48 <= 2 ^ (- e)) by (apply Z.pow_le_mono_r; lia).
  assert (HE0 : 0 < 2 ^ (- e)) by lia.
  pose proof (round_half_even_bound (100 * m) (2 ^ (- e)) HE0) as Hh.
  set (E := 2 ^ (- e)) in *.
  set (h := F64.round_half_even (100 * m) E) in *.
  assert (H100 : 100 * b < E).
  { assert (100 * b < 2 ^ 48); [|lia].
    change (2 ^ 48) with (128 * 2 ^ 41). lia. }
  assert (Hid : E * (b * h - 100 * a) = b * (h * E - 100 * m) + 100 * (m * b - a * E))
    by ring.
  assert (Hub : 2 * Z.abs (E * (b * h - 100 * a)) <= b * E + 100 * b).
  { rewrite Hid. 
    pose proof (Z.abs_triangle (b * (h * E - 100 * m)) (100 * (m * b - a * E))).
    rewrite !Z.abs_mul in H. rewrite (Z.abs_eq b), (Z.abs_eq 100) in H by lia.
    nia. }
  rewrite Z.abs_mul, (Z.abs_eq E) in Hub by lia.
  destruct (Z.le_gt_cases (2 * Z.abs (b * h - 100 * a)) b) as [|Hgt]; [assumption|].
  exfalso. nia.
Qed.

(** Comparison of two numbers with negative exponents, cross-multiplied. *)
Lemma f64_leb_cross x y :
  expo x <= 0 -> expo y <= 0 ->
  F64.leb x y = true ->
  mant x * 2 ^ (- expo y) <= mant y * 2 ^ (- expo x).
Proof.
  intros Hx Hy. unfold F64.leb. rewrite Z.leb_le.
  set (e := Z.min (expo x) (expo y)).
  assert (He : e <= expo x /\ e <= expo y /\ (e = expo x \/ e = expo y))
    by (unfold e; lia).
  intros H.
  assert (Ex : 2 ^ (- expo y) = 2 ^ (expo x - e) * 2 ^ (- expo x - expo y + e))
    by (rewrite <- pow2_split by lia; f_equal; lia).
  assert (Ey : 2 ^ (- expo x) = 2 ^ (expo y - e) * 2 ^ (- expo x - expo y + e))
    by (rewrite <- pow2_split by lia; f_equal; lia).
  rewrite Ex, Ey.
  pose proof (pow2_pos (- expo x - expo y + e) ltac:(lia)).
  nia.
Qed.

(** Below 2^24 votes each, the order of two binary64 means is the order of
    the exact means. *)
Lemma of_ratio_order_exact a1 b1 a2 b2 :
  0 < b1 < 2 ^ 24 -> 0 < b2 < 2 ^ 24 ->
  b1 <= a1 <= 15 * b1 -> b2 <= a2 <= 15 * b2 ->
  F64.leb (F64.of_ratio a2 b2) (F64.of_ratio a1 b1) = true ->
  a2 * b1 <= a1 * b2.
Proof.
  intros Hb1 Hb2 Ha1 Ha2.
  destruct (of_ratio_error a1 b1 ltac:(lia) Ha1) as (m1 & e1 & -> & He1 & Hm1).
  destruct (of_ratio_error a2 b2 ltac:(lia) Ha2) as (m2 & e2 & -> & He2 & Hm2).
  intros Hle. apply f64_leb_cross in Hle; cbn [mant expo] in *; try lia.
  assert (HE1 : 2 ^ 48 <= 2 ^ (- e1)) by (apply Z.pow_le_mono_r; lia).
  assert (HE2 : 2 ^ 48 <= 2 ^ (- e2)) by (apply Z.pow_le_mono_r; lia).
  set (E1 := 2 ^ (- e1)) in *. set (E2 := 2 ^ (- e2)) in *.
  destruct (Z.le_gt_cases (a2 * b1) (a1 * b2)) as [|Hgt]; [assumption|].
  exfalso.
  assert (H1 : 2 * (m1 * b1) <= 2 * (a1 * E1) + b1) by lia.
  assert (H2 : 2 * (a2 * E2) - b2 <= 2 * (m2 * b2)) by lia.
  assert (Hb : b1 * b2 < 2 ^ 48).
  { change (2 ^ 48) with (2 ^ 24 * 2 ^ 24).
    assert (0 < 2 ^ 24) by reflexivity. nia. }
  assert (H3 : (2 * (m2 * b2)) * (b1 * E1) <= (2 * (m1 * b1)) * (b2 * E2)) by nia.
  assert (H4 : (2 * (a2 * E2) - b2) * (b1 * E1) <= (2 * (a1 * E1) + b1) * (b2 * E2)).
  { eapply Z.le_trans; [|eapply Z.le_trans; [exact H3|]].
    - apply Z.mul_le_mono_nonneg_r; [nia|exact H2].
    - apply Z.mul_le_mono_nonneg_r; [nia|exact H1]. }
  assert (H5 : 2 * (E1 * E2) * (a2 * b1 - a1 * b2) <= (b1 * b2) * (E1 + E2)) by nia.
  assert (H6 : 2 * (E1 * E2) <= 2 * (E1 * E2) * (a2 * b1 - a1 * b2)) by nia.
  assert (H7 : (b1 * b2) * (E1 + E2) < 2 ^ 48 * (E1 + E2)) by nia.
  assert (H8 : 2 ^ 48 * (E1 + E2) <= 2 * (E1 * E2)) by nia.
  lia.
Qed.

(** The model agrees with the library's binary64 division on every sum of
    scores (from [n] to [15 * n]) over [n] votes, for [n] up to 40. *)
Example of_ratio_is_binary64_division : quotients_agree 40 = true.
Proof. vm_compute. reflexivity. Qed.

(** 107 / 40 is 2.675; the binary64 quotient lies just below it and
    [round] yields 2.67. *)
Example round2_of_2_675 :
  F64.hundredths (F64.of_ratio 107 40) = 267 /\
  same_float (as_ieee (F64.round2 (F64.of_ratio 107 40))) (ieee_div 267 100)
  = true.
Proof. split; vm_compute; reflexivity. Qed.

(* ------------------------------------------------------------------ *)
(** ** /api/leaderboard: the averages *)

Lemma sql_avg_nonempty l :
  l <> [] ->
  sql_avg l = Some (F64.of_ratio (sum_Z l) (Z.of_nat (List.length l))).
Proof. destruct l; [congruence|reflexivity]. Qed.

Lemma sum_Z_bounds lo hi l :
  Forall (fun v => lo <= v <= hi) l ->
  lo * Z.of_nat (List.length l) <= sum_Z l <= hi * Z.of_nat (List.length l).
Proof.
  induction 1 as [|v l Hv _ IH]; [simpl; lia|].
  cbn [sum_Z fold_right List.length]. fold (sum_Z l). lia.
Qed.

(** What the leaderboard makes of one column of one entrant's ratings. *)
Lemma round_or_zero_rounded_mean l :
  l <> [] -> Forall (fun v => 1 <= v <= 15) l ->
  Z.of_nat (List.length l) < 2 ^ 41 ->
  rounded_mean l (round_or_zero (sql_avg l)).
Proof.
  intros Hne Hl Hn.
  pose proof (sum_Z_bounds 1 15 l Hl) as Hs.
  assert (Hpos : 0 < Z.of_nat (List.length l))
    by (destruct l; [congruence|simpl; lia]).
  unfold sql_avg. destruct l as [|v l']; [congruence|].
  set (l := v :: l') in *. simpl round_or_zero.
  exists (F64.hundredths (F64.of_ratio (sum_Z l) (Z.of_nat (List.length l)))).
  split; [reflexivity|].
  apply hundredths_nearest; lia.
Qed.

Lemma row_ok_scores r :
  row_ok r ->
  1 <= taste r <= 5 /\ 1 <= presentation r <= 5 /\ 1 <= easy r <= 5.
Proof.
  intros [_ H]. unfold check_scores, between_1_5 in H.
  rewrite !andb_true_iff, !Z.leb_le in H. lia.
Qed.

Lemma column_bounds (f : rating -> Z) rs :
  Forall row_ok rs ->
  (forall r, row_ok r -> 1 <= f r <= 15) ->
  Forall (fun v => 1 <= v <= 15) (map f rs).
Proof.
  intros Hok Hf. apply Forall_map. eapply Forall_impl; [|exact Hok].
  exact Hf.
Qed.

Lemma Sorted_weaken_In {A} (R R' : A -> A -> Prop) l :
  (forall x y, In x l -> In y l -> R x y -> R' x y) ->
  Sorted R l -> Sorted R' l.
Proof.
  intros Himp Hs. induction Hs as [|x l Hs IH Hhd]; [constructor|].
  constructor.
  - apply IH. intros a b Ha Hb. apply Himp; now right.
  - destruct Hhd as [|y l' Hxy]; constructor.
    apply Himp; [now left|right; now left|exact Hxy].
Qed.

Lemma ratings_of_row_ok db ei :
  Forall row_ok (rows db) -> Forall row_ok (ratings_of ei db).
Proof.
  intros Hok. unfold ratings_of. apply Forall_forall. intros r Hin.
  apply filter_In in Hin. rewrite Forall_forall in Hok. now apply Hok.
Qed.

(** Ranked by the binary64 means, the entrants are ranked by the exact
    means as long as no entrant has 2^24 ratings or more. *)
Lemma ranking_sorted_exact db :
  Forall row_ok (rows db) ->
  (forall ei, Z.of_nat (List.length (ratings_of ei db)) < 2 ^ 24) ->
  Sorted (fun i j => mean_total_le db j i) (ranking db).
Proof.
  intros Hok Hn.
  apply (Sorted_weaken_In (fun i j => ranks_before db i j = true));
    [|apply ranking_sorted].
  intros i j Hi Hj. apply ranking_In in Hi, Hj.
  unfold ranks_before, mean_total, mean_total_le.
  assert (Hb : forall ei, ratings_of ei db <> [] ->
            0 < Z.of_nat (List.length (map total (ratings_of ei db))) /\
            Z.of_nat (List.length (map total (ratings_of ei db)))
            <= sum_Z (map total (ratings_of ei db))
            <= 15 * Z.of_nat (List.length (map total (ratings_of ei db)))).
  { intros ei Hne.
    assert (Hc : Forall (fun v => 1 <= v <= 15) (map total (ratings_of ei db))).
    { apply column_bounds; [now apply ratings_of_row_ok|].
      intros r Hr. pose proof (row_ok_scores r Hr). unfold total. lia. }
    pose proof (sum_Z_bounds 1 15 _ Hc). rewrite length_map in *.
    destruct (ratings_of ei db); [congruence|]. simpl List.length in *. lia. }
  pose proof (Hb i Hi) as Bi. pose proof (Hb j Hj) as Bj.
  pose proof (Hn i) as Ni. pose proof (Hn j) as Nj.
  rewrite <- (length_map total (ratings_of i db)) in Ni |- *.
  rewrite <- (length_map total (ratings_of j db)) in Nj |- *.
  rewrite !sql_avg_nonempty
    by (intros E; apply map_eq_nil in E; contradiction).
  unfold real_leb. intros Hle.
  apply of_ratio_order_exact in Hle; lia.
Qed.

Lemma three_votes_db_ok : Forall row_ok (rows three_votes_db).
Proof. repeat constructor. Defined.

(** C3. The leaderboard has exactly one entry for each entrant that has a
    stored rating and none for the others (so every entry counts at least
    one vote, and no name occurs twice); the entries stand in descending
    order of the mean total score the query computes, which, below 2^24
    ratings per entrant, is the descending order of the exact means. *)
Theorem leaderboard_lists_rated_entrants_by_mean db :
  Forall row_ok (rows db) ->
  exists order entries,
    api_leaderboard db = Resp entries 200 /\
    Forall2 (entry_for db) order entries /\
    NoDup order /\
    (forall ei, In ei order <-> ratings_of ei db <> []) /\
    Sorted (fun i j => real_leb (mean_total db j) (mean_total db i) = true)
      order /\
    ((forall ei, Z.of_nat (List.length (ratings_of ei db)) < 2 ^ 24) ->
     Sorted (fun i j => mean_total_le db j i) order) /\
    NoDup (map name entries) /\
    Forall (fun x => 1 <= votes x) entries.
Proof.
  intros Hok. destruct (api_leaderboard_spec db Hok) as (entries & Hr & HF).
  exists (ranking db), entries.
  split; [exact Hr|]. split; [exact HF|].
  split; [apply ranking_NoDup|]. split; [apply ranking_In|].
  split; [apply ranking_sorted|].
  split; [intros Hn; now apply ranking_sorted_exact|].
  pose proof (ranking_NoDup db) as Hnd.
  assert (Hval : Forall (fun ei => valid_entrant ei = true) (ranking db))
    by (apply Forall_forall; intros ei; now apply ranking_valid).
  assert (Hne : Forall (fun ei => ratings_of ei db <> []) (ranking db))
    by (apply Forall_forall; intros ei; apply ranking_In).
  clear Hr. induction HF as [|ei x order entries Hx HF IH]; simpl.
  - split; constructor.
  - inversion Hnd as [|? ? Hnin Hnd']; subst.
    inversion Hval as [|? ? Hv Hval']; subst.
    inversion Hne as [|? ? Hn Hne']; subst.
    destruct (IH Hnd' Hval' Hne') as [IH1 IH2]. split.
    + constructor; [|exact IH1]. intros Hin. apply in_map_iff in Hin.
      destruct Hin as (y & Hname & Hy).
      destruct (Forall2_In_r _ _ _ y HF Hy) as (ej & Hej & Hyj).
      rewrite Forall_forall in Hval'.
      apply Hnin.
      replace ei with ej; [exact Hej|].
      apply (getitem_ENTRANTS_inj ej ei (name x)); auto.
      * rewrite <- Hname. exact (proj1 Hyj).
      * exact (proj1 Hx).
    + constructor; [|exact IH2].
      destruct Hx as (_ & -> & _).
      destruct (ratings_of ei db); [congruence|simpl; lia].
Qed.

Lemma leaderboard_lists_rated_entrants_by_mean_witness :
  exists order entries,
    api_leaderboard three_votes_db = Resp entries 200 /\
    Forall2 (entry_for three_votes_db) order entries /\
    NoDup order /\
    (forall ei, In ei order <-> ratings_of ei three_votes_db <> []) /\
    Sorted (fun i j => real_leb (mean_total three_votes_db j)
                         (mean_total three_votes_db i) = true) order /\
    ((forall ei,
        Z.of_nat (List.length (ratings_of ei three_votes_db)) < 2 ^ 24) ->
     Sorted (fun i j => mean_total_le three_votes_db j i) order) /\
    NoDup (map name entries) /\
    Forall (fun x => 1 <= votes x) entries.
Proof.
  apply (leaderboard_lists_rated_entrants_by_mean three_votes_db).
  exact three_votes_db_ok.
Defined.

Example leaderboard_three_votes :
  api_leaderboard three_votes_db =
  Resp [ LbEntry "Yesenia" 1 (PyFloat (Finite f_5)) (PyFloat (Finite f_5))
           (PyFloat (Finite f_5)) (PyFloat (Finite f_15));
         LbEntry "Javier" 2 (PyFloat (Finite f_4_5)) (PyFloat (Finite f_4))
           (PyFloat (Finite f_3_5)) (PyFloat (Finite f_12)) ] 200.
Proof. vm_compute. reflexivity. Qed.

(** C4. For an entrant with stored ratings (fewer than 2^41 of them), the
    entry of the leaderboard carries, in each of avg_taste,
    avg_presentation, avg_easy and avg_total, the mean of that column
    (of taste + presentation + easy for the last) over all ratings of the
    entrant, rounded to two decimal places. *)
Theorem leaderboard_averages_are_rounded_means db entries ei :
  Forall row_ok (rows db) ->
  api_leaderboard db = Resp entries 200 ->
  ratings_of ei db <> [] ->
  Z.of_nat (List.length (ratings_of ei db)) < 2 ^ 41 ->
  exists x,
    In x entries /\
    getitem ENTRANTS ei = Some (name x) /\
    votes x = Z.of_nat (List.length (ratings_of ei db)) /\
    rounded_mean (map taste (ratings_of ei db)) (avg_taste x) /\
    rounded_mean (map presentation (ratings_of ei db)) (avg_presentation x) /\
    rounded_mean (map easy (ratings_of ei db)) (avg_easy x) /\
    rounded_mean (map total (ratings_of ei db)) (avg_total x).
Proof.
  intros Hok Hr Hne Hn.
  destruct (api_leaderboard_spec db Hok) as (entries' & Hr' & HF).
  rewrite Hr in Hr'. inversion Hr'; subst entries'; clear Hr'.
  apply ranking_In in Hne.
  destruct (Forall2_In_l _ _ _ ei HF Hne) as (x & Hx & He).
  apply ranking_In in Hne.
  destruct He as (Hname & Hv & Ht & Hp & Hea & Hto).
  exists x. split; [exact Hx|]. split; [exact Hname|]. split; [exact Hv|].
  assert (Hoks : Forall row_ok (ratings_of ei db)).
  { unfold ratings_of. apply Forall_forall. intros r Hin.
    apply filter_In in Hin. rewrite Forall_forall in Hok. now apply Hok. }
  assert (Hcol : forall f : rating -> Z,
            (forall r, row_ok r -> 1 <= f r <= 15) ->
            rounded_mean (map f (ratings_of ei db))
              (round_or_zero (sql_avg (map f (ratings_of ei db))))).
  { intros f Hf. apply round_or_zero_rounded_mean.
    - destruct (ratings_of ei db); [congruence|discriminate].
    - now apply column_bounds.
    - now rewrite length_map. }
  rewrite Ht, Hp, Hea, Hto. unfold mean_total.
  repeat split; apply Hcol; intros r Hrow;
    pose proof (row_ok_scores r Hrow); unfold total; lia.
Qed.

Lemma leaderboard_averages_are_rounded_means_witness :
  exists x,
    In x [ LbEntry "Yesenia" 1 (PyFloat (Finite f_5)) (PyFloat (Finite f_5))
             (PyFloat (Finite f_5)) (PyFloat (Finite f_15));
           LbEntry "Javier" 2 (PyFloat (Finite f_4_5)) (PyFloat (Finite f_4))
             (PyFloat (Finite f_3_5)) (PyFloat (Finite f_12)) ] /\
    getitem ENTRANTS 0 = Some (name x) /\
    votes x = Z.of_nat (List.length (ratings_of 0 three_votes_db)) /\
    rounded_mean (map taste (ratings_of 0 three_votes_db)) (avg_taste x) /\
    rounded_mean (map presentation (ratings_of 0 three_votes_db))
      (avg_presentation x) /\
    rounded_mean (map easy (ratings_of 0 three_votes_db)) (avg_easy x) /\
    rounded_mean (map total (ratings_of 0 three_votes_db)) (avg_total x).
Proof.
  apply (leaderboard_averages_are_rounded_means three_votes_db _ 0).
  - exact three_votes_db_ok.
  - vm_compute. reflexivity.
  - discriminate.
  - reflexivity.
Defined.

(* ------------------------------------------------------------------ *)
(** ** The admin gate *)

Lemma dict_get_set {A} (d : list (string * A)) k v :
  dict_get (dict_set d k v) k = Some v.
Proof. unfold dict_set. simpl. now rewrite String.eqb_refl. Qed.

Lemma dict_get_pop {A} (d : list (string * A)) k :
  dict_get (dict_pop d k) k = None.
Proof.
  induction d as [|[k' v] d IH]; simpl; [reflexivity|].
  destruct (String.eqb k' k) eqn:E; [exact IH|]. simpl. now rewrite E.
Qed.

Lemma admin_step_is_admin environ db s a :
  is_admin (snd (admin_step environ db s a)) =
  gate_step environ (is_admin s) a.
Proof.
  destruct a as [req|]; simpl.
  - unfold admin. destruct (method req).
    + rewrite orb_false_r.
      destruct (negb (is_admin s)); [reflexivity|].
      destruct (map_raise detailed_of _); [|reflexivity].
      destruct (map_raise lb_data_of _); reflexivity.
    + destruct (String.eqb (submitted_password req) (ADMIN_PASSWORD environ)).
      * simpl. unfold is_admin at 1. rewrite dict_get_set. simpl.
        now rewrite orb_true_r.
      * simpl. now rewrite orb_false_r.
  - unfold is_admin at 1. now rewrite dict_get_pop.
Qed.

Lemma admin_run_is_admin environ db s l :
  is_admin (admin_run environ db s l) =
  authenticated_after environ (is_admin s) l.
Proof.
  unfold admin_run, authenticated_after. revert s.
  induction l as [|a l IH]; intros s; simpl; [reflexivity|].
  now rewrite IH, admin_step_is_admin.
Qed.


Lemma admin_results_when_authenticated environ db s req :
  Forall row_ok (rows db) -> method req = GET -> is_admin s = true ->
  exists d l, admin environ req s db = (Resp (ResultsPage d l) 200, s).
Proof.
  intros Hok Hm Ha. unfold admin. rewrite Hm, Ha. simpl.
  destruct (map_raise_total detailed_of
              (order_by by_entrant_then_created (rows db))) as [d ->].
  { apply order_by_Forall. eapply Forall_impl; [|exact Hok].
    intros r [Hv _]. unfold detailed_of.
    destruct (getitem_valid _ Hv) as [nm ->]. discriminate. }
  destruct (map_raise_total lb_data_of (leaderboard_query db)) as [l ->].
  { rewrite leaderboard_query_spec. apply Forall_map, Forall_forall.
    intros ei Hin. unfold lb_data_of, agg_of, aggregate. simpl.
    destruct (getitem_valid ei (ranking_valid db ei Hok Hin)) as [nm ->].
    discriminate. }
  eauto.
Qed.


(** With the default configuration: the prompt, a wrong password, the
    right one (padded with blanks), the view, and the logout. *)
Example admin_session_default :
  let db := three_votes_db in
  let s1 := admin_run [] db [] [ToAdmin admin_get] in
  let s2 := admin_run [] db [] [ToAdmin (admin_post "masterchef")] in
  let s3 := admin_run [] db [] [ToAdmin (admin_post " MASTERCHEF2025 ")] in
  let s4 := admin_run [] db s3 [ToLogout] in
  fst (admin [] admin_get [] db) = Resp (LoginPage None) 200 /\
  is_admin s1 = false /\
  fst (admin [] (admin_post "masterchef") [] db) =
    Resp (LoginPage (Some "Incorrect password")) 200 /\
  is_admin s2 = false /\
  fst (admin [] (admin_post " MASTERCHEF2025 ") [] db) =
    Resp RedirectToAdmin 302 /\
  is_admin s3 = true /\
  (exists d l, fst (admin [] admin_get s3 db) = Resp (ResultsPage d l) 200) /\
  is_admin s4 = false /\
  fst (admin [] admin_get s4 db) = Resp (LoginPage None) 200.
Proof.
  repeat split; try reflexivity.
  eexists. eexists. vm_compute. reflexivity.
Qed.

(* ------------------------------------------------------------------ *)
(** ** End to end *)

(** A first vote from a fresh device is read back by that device, and the
    leaderboard shows the entrant with one vote and a mean total of 12. *)
Example first_vote_end_to_end :
  exists db,
    api_rate noon fresh_vote init_db = (rate_ok, db) /\
    api_my_rating (own_rating_query (with_device "d9") "0") db =
      Resp (MyRating (Some (RatingView 5 4 3 None))) 200 /\
    api_leaderboard db =
      Resp [ LbEntry "Javier" 1 (PyFloat (Finite f_5)) (PyFloat (Finite f_4))
               (PyFloat (Finite (F64 6755399441055744 (-51))))
               (PyFloat (Finite f_12)) ] 200.
Proof. eexists. repeat split; vm_compute; reflexivity. Qed.

(* ------------------------------------------------------------------ *)
(** ** Further properties of /api/rate *)


(** X2. A submission touches one slot only: the rows stored for any other
    (entrant, device) pair are what they were. *)
Theorem api_rate_other_slots_unchanged now req db ei' dev' :
  unique_keys (rows db) ->
  (forall pl, parse_payload (request_data req) = Some pl ->
     (ei', dev') <> (p_entrant_index pl, device_id_from_request req)) ->
  slot ei' dev' (snd (api_rate now req db)) = slot ei' dev' db.
Proof.
  intros Hu Hne.
  destruct (api_rate_cases now req db) as [[msg H]|(pl & db' & Hp & _ & U & H)];
    rewrite H; simpl; [reflexivity|].
  eapply upsert_other_slot; [exact Hu|exact U|now apply Hne].
Qed.

Lemma api_rate_other_slots_unchanged_witness :
  slot 0 "d1" (snd (api_rate later third_vote one_vote_db)) =
  slot 0 "d1" one_vote_db.
Proof.
  apply (api_rate_other_slots_unchanged later third_vote one_vote_db 0 "d1").
  - repeat constructor. simpl. tauto.
  - intros pl Hp. vm_compute in Hp. inversion Hp; subst. simpl.
    discriminate.
Defined.

Lemma select_own_of_slot ei dev db r :
  slot ei dev db = [r] -> select_own ei dev db = Some (view_of r).
Proof.
  intros Hs. pose proof (select_own_spec ei dev db) as H.
  destruct (select_own ei dev db) as [v|].
  - destruct H as (r' & Hin & ->). rewrite Hs in Hin.
    destruct Hin as [<-|[]]. reflexivity.
  - congruence.
Qed.

(** X3. What a device submits it reads back: after an accepted submission,
    the own-rating lookup of the same device for that entrant answers with
    the submitted scores and the judge as stored. *)
Theorem rate_then_my_rating now req query db pl :
  unique_keys (rows db) ->
  parse_payload (request_data req) = Some pl -> acceptable pl ->
  device_id_from_request query = device_id_from_request req ->
  int_of_str (entrant_index_arg query) = Some (p_entrant_index pl) ->
  api_my_rating query (snd (api_rate now req db)) =
  Resp (MyRating (Some (RatingView (p_taste pl) (p_presentation pl)
                          (p_easy pl) (p_judge pl)))) 200.
Proof.
  intros Hu Hp Ha Hd Hq.
  destruct (api_rate_accepts now req db pl Hp Ha) as (db' & U & H).
  rewrite H. simpl.
  destruct (upsert_slot _ _ _ _ _ _ _ _ _ Hu U)
    as (r' & S & T1 & T2 & T3 & T4 & _).
  unfold api_my_rating. rewrite Hq, Hd.
  destruct Ha as (Hv & _). rewrite (proj2 (valid_entrant_iff _) Hv). simpl.
  rewrite (select_own_of_slot _ _ _ _ S). unfold view_of.
  now rewrite T1, T2, T3, T4.
Qed.

Lemma rate_then_my_rating_witness :
  api_my_rating own_rating_reader (snd (api_rate later second_vote one_vote_db))
  = Resp (MyRating (Some (RatingView 1 2 4 (Some "Bob")))) 200.
Proof.
  apply (rate_then_my_rating later second_vote own_rating_reader one_vote_db
           (Payload 0 1 2 4 (Some "Bob"))).
  - repeat constructor. simpl. tauto.
  - reflexivity.
  - unfold acceptable; simpl; lia.
  - reflexivity.
  - reflexivity.
Defined.

Lemma slot_at_most_one ei dev rs :
  unique_keys rs ->
  filter (has_key ei dev) rs = [] \/ exists r, filter (has_key ei dev) rs = [r].
Proof.
  induction rs as [|r rs IH]; intros Hu; [now left|].
  simpl. destruct (has_key ei dev r) eqn:E.
  - right. exists r. now rewrite (unique_slot ei dev r rs Hu E).
  - apply IH. unfold unique_keys in *. simpl in Hu. now inversion Hu.
Qed.

(** X4. An accepted submission adds exactly one row when its device has no
    rating for the entrant yet, and none when it has; no row is ever
    removed. *)
Theorem rate_row_count now req db pl :
  unique_keys (rows db) ->
  parse_payload (request_data req) = Some pl -> acceptable pl ->
  List.length (rows (snd (api_rate now req db))) =
  (List.length (rows db) +
   match slot (p_entrant_index pl) (device_id_from_request req) db with
   | [] => 1
   | _ => 0
   end)%nat.
Proof.
  intros Hu Hp Ha.
  destruct (api_rate_accepts now req db pl Hp Ha) as (db' & U & H).
  rewrite H. simpl.
  destruct (upsert_slot _ _ _ _ _ _ _ _ _ Hu U)
    as (r' & _ & _ & _ & _ & _ & Hnew & Hold).
  destruct (slot_at_most_one (p_entrant_index pl) (device_id_from_request req)
              (rows db) Hu) as [E|[r E]]; fold (slot (p_entrant_index pl)
              (device_id_from_request req) db) in E; rewrite E.
  - destruct (Hnew E) as [_ ->]. rewrite length_app. reflexivity.
  - destruct (Hold r E) as [_ ->]. lia.
Qed.

Lemma rate_row_count_witness :
  List.length (rows (snd (api_rate later third_vote one_vote_db))) =
  (List.length (rows one_vote_db) +
   match slot 0 (device_id_from_request third_vote) one_vote_db with
   | [] => 1
   | _ => 0
   end)%nat.
Proof.
  apply (rate_row_count later third_vote one_vote_db
           (Payload 0 3 3 3 (Some "Cy"))).
  - repeat constructor. simpl. tauto.
  - reflexivity.
  - unfold acceptable; simpl; lia.
Defined.

Lemma do_update_same ei dev t p e j rs rs' :
  do_update ei dev t p e j rs = Some rs' ->
  (forall r, In r rs -> has_key ei dev r = true -> set_scores t p e j r = r) ->
  rs' = rs.
Proof.
  revert rs'. induction rs as [|r rs IH]; simpl; intros rs' H Hsame;
    [discriminate|].
  destruct (has_key ei dev r) eqn:E.
  - inversion H; subst. f_equal. apply Hsame; auto.
  - destruct (do_update ei dev t p e j rs) as [rs0|]; simpl in H;
      [|discriminate].
    inversion H; subst. f_equal. apply IH; auto.
Qed.

(** X5. Submitting the same rating again changes no row: after an accepted
    submission, a second one with the same entrant, scores and judge from
    the same device leaves the rows exactly as the first left them. *)
Theorem rate_again_changes_nothing now1 now2 req db pl :
  unique_keys (rows db) ->
  parse_payload (request_data req) = Some pl -> acceptable pl ->
  rows (snd (api_rate now2 req (snd (api_rate now1 req db)))) =
  rows (snd (api_rate now1 req db)).
Proof.
  intros Hu Hp Ha.
  destruct (api_rate_accepts now1 req db pl Hp Ha) as (db1 & U1 & H1).
  rewrite H1. simpl.
  destruct (api_rate_accepts now2 req db1 pl Hp Ha) as (db2 & U2 & H2).
  rewrite H2. simpl.
  pose proof (upsert_unique _ _ _ _ _ _ _ _ _ Hu U1) as Hu1.
  destruct (upsert_slot _ _ _ _ _ _ _ _ _ Hu U1)
    as (r1 & S1 & T1 & T2 & T3 & T4 & _).
  unfold upsert in U2.
  destruct (check_scores _ _ _); [|discriminate].
  destruct (do_update _ _ _ _ _ _ (rows db1)) as [rs|] eqn:D.
  - inversion U2; subst. simpl.
    apply (do_update_same _ _ _ _ _ _ _ _ D).
    intros r Hin Hk.
    assert (Hr : In r (slot (p_entrant_index pl)
                         (device_id_from_request req) db1))
      by (apply filter_In; auto).
    rewrite S1 in Hr. destruct Hr as [<-|[]].
    destruct r1; simpl in *. unfold set_scores. simpl. congruence.
  - apply do_update_none in D. unfold slot in S1. congruence.
Qed.

Lemma rate_again_changes_nothing_witness :
  rows (snd (api_rate later first_vote (snd (api_rate noon first_vote init_db))))
  = rows (snd (api_rate noon first_vote init_db)).
Proof.
  apply (rate_again_changes_nothing noon later first_vote init_db
           (Payload 0 5 4 3 (Some "Ann"))).
  - constructor.
  - reflexivity.
  - unfold acceptable; simpl; lia.
Defined.

(* ------------------------------------------------------------------ *)
(** ** What holds of every table the application can reach *)

Lemma rate_all_invariant (I : table -> Prop) :
  I init_db ->
  (forall now req db, I db -> I (snd (api_rate now req db))) ->
  forall l, I (rate_all l init_db).
Proof.
  intros H0 Hstep l. unfold rate_all. generalize H0. generalize init_db.
  induction l as [|c l IH]; intros db Hdb; simpl; [exact Hdb|].
  apply IH. now apply Hstep.
Qed.

Lemma upsert_Forall (P : rating -> Prop) now ei t p e j dev db db' :
  (forall r, P r -> P (set_scores t p e j r)) ->
  P (Rating (seq db + 1) ei t p e j dev now) ->
  Forall P (rows db) ->
  upsert now ei t p e j dev db = Some db' -> Forall P (rows db').
Proof.
  intros Hset Hnew HF H. unfold upsert in H.
  destruct (check_scores t p e); [|discriminate].
  destruct (do_update ei dev t p e j (rows db)) as [rs|] eqn:D;
    inversion H; subst; clear H; simpl.
  - eapply do_update_Forall; eauto.
  - apply Forall_app. split; [exact HF|]. constructor; [exact Hnew|constructor].
Qed.

Lemma do_update_ids ei dev t p e j rs rs' :
  do_update ei dev t p e j rs = Some rs' -> map id rs' = map id rs.
Proof.
  revert rs'. induction rs as [|r rs IH]; simpl; intros rs' H; [discriminate|].
  destruct (has_key ei dev r).
  - inversion H; subst. reflexivity.
  - destruct (do_update ei dev t p e j rs) as [rs0|]; simpl in H;
      [|discriminate].
    inversion H; subst. simpl. f_equal. now apply IH.
Qed.

Lemma strongly_sorted_snoc l x :
  StronglySorted Z.lt l -> Forall (fun y => y < x) l ->
  StronglySorted Z.lt (l ++ [x]).
Proof.
  induction 1 as [|y l Hs IH Hall]; intros Hx; simpl.
  - constructor; constructor.
  - inversion Hx; subst. constructor; [now apply IH|].
    apply Forall_app. split; [exact Hall|]. constructor; [assumption|constructor].
Qed.

Lemma upsert_ids_ascending now ei t p e j dev db db' :
  ids_ascending db -> upsert now ei t p e j dev db = Some db' ->
  ids_ascending db'.
Proof.
  intros (Hs & Hq & Hb) H. unfold upsert in H.
  destruct (check_scores t p e); [|discriminate].
  destruct (do_update ei dev t p e j (rows db)) as [rs|] eqn:D;
    inversion H; subst; clear H; unfold ids_ascending; simpl.
  - rewrite (do_update_ids _ _ _ _ _ _ _ _ D).
    split; [exact Hs|]. split; [lia|].
    apply (do_update_Forall (fun r => 1 <= id r <= seq db + 1)
             ei dev t p e j (rows db) rs); [auto| |exact D].
    eapply Forall_impl; [|exact Hb]. intros; simpl in *; lia.
  - rewrite map_app. simpl. split; [|split; [lia|]].
    + apply strongly_sorted_snoc; [exact Hs|].
      apply Forall_map. eapply Forall_impl; [|exact Hb].
      intros; simpl in *; lia.
    + apply Forall_app. split.
      * eapply Forall_impl; [|exact Hb]. intros; simpl in *; lia.
      * constructor; [|constructor]. simpl. lia.
Qed.

(** X7. In every table reachable from an empty database the rowids are
    positive, ascend strictly in row order (so no two rows share one) and
    never exceed the AUTOINCREMENT counter. *)
Theorem reachable_ids_ascending l : ids_ascending (rate_all l init_db).
Proof.
  apply rate_all_invariant.
  - repeat split; [constructor|simpl; lia|constructor].
  - intros now req db Hi.
    destruct (api_rate_cases now req db) as [[msg H]|(pl & db' & _ & _ & U & H)];
      rewrite H; simpl; [exact Hi|].
    eapply upsert_ids_ascending; eauto.
Qed.

(** *** The text columns *)

Lemma lstrip_starts_clean s : starts_clean (lstrip s).
Proof.
  induction s as [|c s IH]; simpl; [exact I|].
  destruct (isspace c) eqn:E; [exact IH|]. simpl. exact E.
Qed.

Lemma rstrip_starts_clean s : starts_clean s -> starts_clean (rstrip s).
Proof.
  destruct s as [|c s]; simpl; [auto|]. intros Hc.
  destruct (rstrip s); [rewrite Hc|]; simpl; exact Hc.
Qed.

Lemma take_starts_clean n s : starts_clean s -> starts_clean (take n s).
Proof. destruct n, s; simpl; auto. Qed.

Lemma starts_clean_lstrip s : starts_clean s -> lstrip s = s.
Proof. destruct s as [|c s]; simpl; [auto|]. now intros ->. Qed.

Lemma take_length n s : (String.length (take n s) <= n)%nat.
Proof.
  revert s. induction n as [|n IH]; intros [|c s]; simpl; try lia.
  specialize (IH s). lia.
Qed.

(** The judge that [api_rate] stores. *)
Lemma judge_of_normal data j : judge_of data = Some j -> judge_normal j.
Proof.
  unfold judge_of. destruct (data_get data "judge") as [v|]; [|discriminate].
  destruct (py_or v (PyStr "")) as [| | | |s| |]; try discriminate.
  assert (Hl : (String.length (take 50 (strip s)) <= 50)%nat)
    by apply take_length.
  assert (Hc : lstrip (take 50 (strip s)) = take 50 (strip s))
    by (apply starts_clean_lstrip, take_starts_clean, rstrip_starts_clean,
          lstrip_starts_clean).
  revert Hl Hc. generalize (take 50 (strip s)). intros t Hl Hc [= <-].
  destruct (String.eqb t "") eqn:E; [exact I|].
  apply String.eqb_neq in E. repeat split; assumption.
Qed.

Lemma device_id_not_empty req : device_id_from_request req <> "".
Proof.
  unfold device_id_from_request.
  destruct (dict_get (cookies req) "device_id") as [d|]; [|discriminate].
  destruct (String.eqb d "") eqn:E; [discriminate|].
  now apply String.eqb_neq in E.
Qed.

Lemma parse_payload_judge data pl :
  parse_payload data = Some pl -> judge_of data = Some (p_judge pl).
Proof.
  unfold parse_payload.
  destruct (int_field data "entrant_index"); [|discriminate].
  destruct (int_field data "taste"); [|discriminate].
  destruct (int_field data "presentation"); [|discriminate].
  destruct (int_field data "easy"); [|discriminate].
  destruct (judge_of data); [|discriminate].
  intros H. inversion H. reflexivity.
Qed.

(** X8. In every table reachable from an empty database each row has a
    device identifier that is not empty, and a judge that is either NULL or
    a non-empty text of at most 50 characters that does not start with
    white space. *)
Theorem reachable_rows_normal l : Forall row_normal (rows (rate_all l init_db)).
Proof.
  apply (rate_all_invariant (fun db => Forall row_normal (rows db))).
  - constructor.
  - intros now req db Hi.
    destruct (api_rate_cases now req db) as [[msg H]|(pl & db' & Hp & _ & U & H)];
      rewrite H; simpl; [exact Hi|].
    pose proof (judge_of_normal _ _ (parse_payload_judge _ _ Hp)) as Hj.
    eapply upsert_Forall; [| |exact Hi|exact U].
    + intros r [Hd _]. split; [exact Hd|exact Hj].
    + split; [apply device_id_not_empty|exact Hj].
Qed.

(** Cutting to 50 characters comes after stripping, so white space can
    remain at the end of a stored judge. *)
Example judge_can_end_in_space :
  judge_of (PyDict [("judge",
     PyStr "12345678901234567890123456789012345678901234567890123456789 xyz")])
  = Some (Some "12345678901234567890123456789012345678901234567890")
  /\
  judge_of (PyDict [("judge",
     PyStr "1234567890123456789012345678901234567890123456789 xyz")])
  = Some (Some "1234567890123456789012345678901234567890123456789 ").
Proof. split; reflexivity. Qed.

(* ------------------------------------------------------------------ *)
(** ** Further properties of /api/leaderboard *)

Lemma sum_Z_cons x l : sum_Z (x :: l) = x + sum_Z l.
Proof. reflexivity. Qed.

Lemma indicator_sum e ks :
  NoDup ks ->
  sum_Z (map (fun k => if e =? k then 1 else 0) ks) =
  if existsb (Z.eqb e) ks then 1 else 0.
Proof.
  induction 1 as [|k ks Hnin _ IH]; [reflexivity|].
  cbn [map existsb]. rewrite sum_Z_cons, IH.
  destruct (e =? k) eqn:E; simpl; [|reflexivity].
  apply Z.eqb_eq in E. subst k.
  destruct (existsb (Z.eqb e) ks) eqn:X; [|reflexivity].
  apply existsb_exists in X. destruct X as (x & Hx & Ex).
  apply Z.eqb_eq in Ex. subst x. contradiction.
Qed.

(** The groups of a list of rows partition it. *)
Lemma group_sizes_add_up rs ks :
  NoDup ks -> (forall r, In r rs -> In (entrant_index r) ks) ->
  sum_Z (map (fun k => Z.of_nat (List.length (filter (of_entrant k) rs))) ks)
  = Z.of_nat (List.length rs).
Proof.
  intros Hnd. induction rs as [|r rs IH]; intros Hin.
  - clear Hnd Hin. induction ks as [|k ks IHk]; [reflexivity|].
    cbn [map]. rewrite sum_Z_cons, IHk. reflexivity.
  - assert (Hsplit : forall l,
      sum_Z (map (fun k => Z.of_nat
                     (List.length (filter (of_entrant k) (r :: rs)))) l)
      = sum_Z (map (fun k => if entrant_index r =? k then 1 else 0) l)
        + sum_Z (map (fun k => Z.of_nat
                       (List.length (filter (of_entrant k) rs))) l)).
    { induction l as [|k l IHl]; [reflexivity|].
      cbn [map]. rewrite !sum_Z_cons, IHl. cbn [filter]. unfold of_entrant at 1.
      destruct (entrant_index r =? k); simpl List.length; lia. }
    rewrite Hsplit, IH by (intros x Hx; apply Hin; now right).
    rewrite (indicator_sum _ _ Hnd).
    replace (existsb (Z.eqb (entrant_index r)) ks) with true.
    + simpl List.length. lia.
    + symmetry. apply existsb_exists. exists (entrant_index r).
      split; [apply Hin; now left|apply Z.eqb_refl].
Qed.

(** X9. The vote counts of the leaderboard add up to the number of stored
    ratings: every rating is counted for exactly one entry. *)
Theorem leaderboard_votes_add_up db entries :
  Forall row_ok (rows db) ->
  api_leaderboard db = Resp entries 200 ->
  sum_Z (map votes entries) = Z.of_nat (List.length (rows db)).
Proof.
  intros Hok Hr.
  destruct (api_leaderboard_spec db Hok) as (entries' & Hr' & HF).
  rewrite Hr in Hr'. inversion Hr'; subst entries'; clear Hr'.
  assert (Hv : map votes entries =
               map (fun k => Z.of_nat (List.length (filter (of_entrant k) (rows db))))
                 (ranking db)).
  { clear Hr. induction HF as [|ei x l l' Hx _ IH]; [reflexivity|].
    simpl. rewrite IH. f_equal. exact (proj1 (proj2 Hx)). }
  rewrite Hv.
  apply group_sizes_add_up; [apply ranking_NoDup|].
  intros r Hin. apply ranking_In. unfold ratings_of. intros E.
  rewrite filter_nil_iff in E. specialize (E r Hin).
  rewrite Z.eqb_refl in E. discriminate.
Qed.

Lemma leaderboard_votes_add_up_witness :
  sum_Z (map votes
           [ LbEntry "Yesenia" 1 (PyFloat (Finite f_5)) (PyFloat (Finite f_5))
               (PyFloat (Finite f_5)) (PyFloat (Finite f_15));
             LbEntry "Javier" 2 (PyFloat (Finite f_4_5)) (PyFloat (Finite f_4))
               (PyFloat (Finite f_3_5)) (PyFloat (Finite f_12)) ])
  = Z.of_nat (List.length (rows three_votes_db)).
Proof.
  apply (leaderboard_votes_add_up three_votes_db).
  - repeat constructor.
  - vm_compute. reflexivity.
Defined.

Lemma round_or_zero_range lo hi l :
  1 <= lo -> hi <= 15 ->
  l <> [] -> Forall (fun v => lo <= v <= hi) l ->
  Z.of_nat (List.length l) < 2 ^ 41 ->
  hundredths_between (100 * lo) (100 * hi) (round_or_zero (sql_avg l)).
Proof.
  intros Hlo Hhi Hne Hl Hn.
  pose proof (sum_Z_bounds lo hi l Hl) as Hs.
  assert (Hpos : 0 < Z.of_nat (List.length l))
    by (destruct l; [congruence|simpl; lia]).
  rewrite (sql_avg_nonempty l Hne). simpl round_or_zero.
  eexists. split; [reflexivity|].
  pose proof (hundredths_nearest (sum_Z l) (Z.of_nat (List.length l))
                ltac:(lia) ltac:(nia)) as Hh.
  set (h := F64.hundredths _) in *. set (n := Z.of_nat (List.length l)) in *.
  set (S := sum_Z l) in *. split; nia.
Qed.

(** X10. While an entrant has fewer than 2^41 ratings, the averages shown
    for it stay in the range of the scores: each of avg_taste,
    avg_presentation and avg_easy is a two-place decimal between 1.00 and
    5.00, and avg_total one between 3.00 and 15.00. *)
Theorem leaderboard_averages_in_range db entries x :
  Forall row_ok (rows db) ->
  (forall ei, Z.of_nat (List.length (ratings_of ei db)) < 2 ^ 41) ->
  api_leaderboard db = Resp entries 200 ->
  In x entries ->
  hundredths_between 100 500 (avg_taste x) /\
  hundredths_between 100 500 (avg_presentation x) /\
  hundredths_between 100 500 (avg_easy x) /\
  hundredths_between 300 1500 (avg_total x).
Proof.
  intros Hok Hn Hr Hx.
  destruct (api_leaderboard_spec db Hok) as (entries' & Hr' & HF).
  rewrite Hr in Hr'. inversion Hr'; subst entries'; clear Hr'.
  destruct (Forall2_In_r _ _ _ x HF Hx) as (ei & Hei & He).
  apply ranking_In in Hei.
  destruct He as (_ & _ & Ht & Hp & Hea & Hto).
  pose proof (ratings_of_row_ok db ei Hok) as Hoks.
  assert (Hcol : forall (f : rating -> Z) lo hi,
            1 <= lo -> hi <= 15 ->
            (forall r, row_ok r -> lo <= f r <= hi) ->
            hundredths_between (100 * lo) (100 * hi)
              (round_or_zero (sql_avg (map f (ratings_of ei db))))).
  { intros f lo hi Hlo Hhi Hf. apply round_or_zero_range; auto.
    - intros E. apply map_eq_nil in E. contradiction.
    - apply Forall_map. eapply Forall_impl; [|exact Hoks]. exact Hf.
    - rewrite length_map. apply Hn. }
  rewrite Ht, Hp, Hea, Hto. unfold mean_total.
  repeat split.
  - apply (Hcol taste 1 5); try lia.
    intros r Hrow. pose proof (row_ok_scores r Hrow). lia.
  - apply (Hcol presentation 1 5); try lia.
    intros r Hrow. pose proof (row_ok_scores r Hrow). lia.
  - apply (Hcol easy 1 5); try lia.
    intros r Hrow. pose proof (row_ok_scores r Hrow). lia.
  - apply (Hcol total 3 15); try lia.
    intros r Hrow. pose proof (row_ok_scores r Hrow). unfold total. lia.
Qed.

Lemma three_votes_db_small ei :
  Z.of_nat (List.length (ratings_of ei three_votes_db)) < 2 ^ 41.
Proof.
  unfold ratings_of, three_votes_db. simpl rows.
  pose proof (filter_length_le (fun r => entrant_index r =? ei)
                [Rating 1 0 5 4 3 (Some "Ann") "d1" noon;
                 Rating 2 2 5 5 5 None "d1" noon;
                 Rating 3 0 4 4 4 None "d2" later]) as H.
  simpl List.length in H at 2.
  assert (3 < 2 ^ 41) by reflexivity. lia.
Defined.

Lemma leaderboard_averages_in_range_witness :
  let x := LbEntry "Javier" 2 (PyFloat (Finite f_4_5)) (PyFloat (Finite f_4))
             (PyFloat (Finite f_3_5)) (PyFloat (Finite f_12)) in
  hundredths_between 100 500 (avg_taste x) /\
  hundredths_between 100 500 (avg_presentation x) /\
  hundredths_between 100 500 (avg_easy x) /\
  hundredths_between 300 1500 (avg_total x).
Proof.
  apply (leaderboard_averages_in_range three_votes_db
           [ LbEntry "Yesenia" 1 (PyFloat (Finite f_5)) (PyFloat (Finite f_5))
               (PyFloat (Finite f_5)) (PyFloat (Finite f_15));
             LbEntry "Javier" 2 (PyFloat (Finite f_4_5)) (PyFloat (Finite f_4))
               (PyFloat (Finite f_3_5)) (PyFloat (Finite f_12)) ]).
  - repeat constructor.
  - exact three_votes_db_small.
  - vm_compute. reflexivity.
  - right. left. reflexivity.
Defined.

(** X11. A vote puts its entrant on the leaderboard: after an accepted
    submission the leaderboard has an entry with the name of the rated
    entrant and at least one vote. *)
Theorem rated_entrant_is_listed now req db pl :
  table_ok db ->
  parse_payload (request_data req) = Some pl -> acceptable pl ->
  exists entries x,
    api_leaderboard (snd (api_rate now req db)) = Resp entries 200 /\
    In x entries /\
    getitem ENTRANTS (p_entrant_index pl) = Some (name x) /\
    1 <= votes x.
Proof.
  intros Hok Hp Ha.
  pose proof (api_rate_table_ok now req db Hok) as [Hu' Hok'].
  destruct (api_rate_accepts now req db pl Hp Ha) as (db' & U & H).
  rewrite H in *. simpl in *.
  destruct (upsert_slot _ _ _ _ _ _ _ _ _ (proj1 Hok) U)
    as (r' & S & _).
  assert (Hin : In r' (slot (p_entrant_index pl) (device_id_from_request req) db'))
    by (rewrite S; now left).
  apply filter_In in Hin. destruct Hin as [Hin Hk].
  apply has_key_true in Hk.
  assert (He : entrant_index r' = p_entrant_index pl)
    by (unfold key_of in Hk; congruence).
  assert (Hne : ratings_of (p_entrant_index pl) db' <> []).
  { unfold ratings_of. intros E. rewrite filter_nil_iff in E.
    specialize (E r' Hin). simpl in E. rewrite He, Z.eqb_refl in E.
    discriminate. }
  destruct (api_leaderboard_spec db' Hok') as (entries & Hr & HF).
  apply ranking_In in Hne.
  destruct (Forall2_In_l _ _ _ _ HF Hne) as (x & Hx & Hname & Hv & _).
  apply ranking_In in Hne.
  exists entries, x.
  split; [exact Hr|]. split; [exact Hx|]. split; [exact Hname|].
  rewrite Hv. destruct (ratings_of (p_entrant_index pl) db');
    [congruence|simpl; lia].
Qed.

Lemma rated_entrant_is_listed_witness :
  exists entries x,
    api_leaderboard (snd (api_rate noon first_vote init_db)) = Resp entries 200 /\
    In x entries /\
    getitem ENTRANTS 0 = Some (name x) /\
    1 <= votes x.
Proof.
  apply (rated_entrant_is_listed noon first_vote init_db
           (Payload 0 5 4 3 (Some "Ann"))).
  - exact init_db_ok.
  - reflexivity.
  - unfold acceptable; simpl; lia.
Defined.

(* ------------------------------------------------------------------ *)
(** ** Further properties of the admin routes *)

Lemma by_entrant_then_created_total a b :
  by_entrant_then_created a b = false -> by_entrant_then_created b a = true.
Proof.
  unfold by_entrant_then_created. intros H.
  apply orb_false_iff in H. destruct H as [H1 H2].
  apply Z.ltb_ge in H1.
  destruct (entrant_index b <? entrant_index a) eqn:L; [reflexivity|].
  apply Z.ltb_ge in L. simpl.
  assert (E : entrant_index a = entrant_index b) by lia.
  rewrite E, Z.eqb_refl in H2. simpl in H2.
  rewrite E, Z.eqb_refl. simpl.
  destruct (String.leb_total (created_at a) (created_at b)); congruence.
Qed.

Lemma by_entrant_then_created_spec a b :
  by_entrant_then_created a b = true -> entrant_then_created a b.
Proof.
  unfold by_entrant_then_created, entrant_then_created. intros H.
  apply orb_true_iff in H. destruct H as [H|H].
  - left. now apply Z.ltb_lt.
  - right. apply andb_true_iff in H. destruct H as [H1 H2].
    apply Z.eqb_eq in H1. auto.
Qed.

Lemma admin_results_inv environ db s req d l st s' :
  admin environ req s db = (Resp (ResultsPage d l) st, s') ->
  map_raise detailed_of (order_by by_entrant_then_created (rows db)) = Some d /\
  map_raise lb_data_of (leaderboard_query db) = Some l.
Proof.
  unfold admin. destruct (method req).
  - destruct (negb (is_admin s)); [discriminate|].
    destruct (map_raise detailed_of _) as [d0|]; [|discriminate].
    destruct (map_raise lb_data_of _) as [l0|]; [|discriminate].
    intros H. inversion H; subst. auto.
  - destruct (String.eqb _ _); discriminate.
Qed.

(** X12. The detailed view lists every rating exactly once, ordered by
    entrant index and then by creation timestamp; each line carries the
    entrant's name and the columns of its row, and its total is the sum of
    the three scores. *)
Theorem admin_detailed_view environ db s req d l st s' :
  admin environ req s db = (Resp (ResultsPage d l) st, s') ->
  exists sorted,
    Permutation (rows db) sorted /\
    Sorted entrant_then_created sorted /\
    Forall2 (fun r x =>
               getitem ENTRANTS (entrant_index r) = Some (d_entrant x) /\
               d_id x = id r /\ d_taste x = taste r /\
               d_presentation x = presentation r /\ d_easy x = easy r /\
               d_total x = taste r + presentation r + easy r /\
               d_judge x = or_empty (judge r) /\
               d_device_id x = device_id r /\
               d_created_at x = created_at r) sorted d /\
    List.length d = List.length (rows db).
Proof.
  intros H. apply admin_results_inv in H. destruct H as [Hd _].
  exists (order_by by_entrant_then_created (rows db)).
  split; [apply order_by_perm|]. split.
  - eapply Sorted_weaken_In;
      [|apply (order_by_sorted by_entrant_then_created
                 by_entrant_then_created_total)].
    intros a b _ _. apply by_entrant_then_created_spec.
  - apply map_raise_Forall2 in Hd. split.
    + eapply Forall2_impl; [|exact Hd]. intros r x Hx. simpl in Hx.
      unfold detailed_of in Hx.
      destruct (getitem ENTRANTS (entrant_index r)) as [nm|]; [|discriminate].
      inversion Hx; subst. simpl. repeat split; reflexivity.
    + rewrite <- (Forall2_length Hd). apply order_by_length.
Qed.

Lemma admin_detailed_view_witness :
  exists sorted,
    Permutation (rows two_votes_db) sorted /\
    Sorted entrant_then_created sorted /\
    Forall2 (fun r x =>
               getitem ENTRANTS (entrant_index r) = Some (d_entrant x) /\
               d_id x = id r /\ d_taste x = taste r /\
               d_presentation x = presentation r /\ d_easy x = easy r /\
               d_total x = taste r + presentation r + easy r /\
               d_judge x = or_empty (judge r) /\
               d_device_id x = device_id r /\
               d_created_at x = created_at r) sorted
      [ DetailedRow 1 "Javier" 5 4 3 12 "Ann" "d1" later;
        DetailedRow 2 "Yesenia" 1 2 3 6 "" "d2" noon ] /\
    List.length
      [ DetailedRow 1 "Javier" 5 4 3 12 "Ann" "d1" later;
        DetailedRow 2 "Yesenia" 1 2 3 6 "" "d2" noon ] =
    List.length (rows two_votes_db).
Proof.
  apply (admin_detailed_view [] two_votes_db admin_session admin_get _
           [ LbData "Javier" 1 (PyFloat (Finite f_12));
             LbData "Yesenia" 1 (PyFloat (Finite (F64 6755399441055744 (-50)))) ]
           200 admin_session).
  vm_compute. reflexivity.
Defined.

Lemma of_ratio_mant_nonzero a b :
  0 < a -> 0 < b -> mant (F64.of_ratio a b) <> 0.
Proof.
  intros Ha Hb. unfold F64.of_ratio.
  replace (a =? 0) with false by (symmetry; apply Z.eqb_neq; lia).
  replace (0 <? a) with true by (symmetry; apply Z.ltb_lt; lia).
  pose proof (of_ratio_pos_canonical a b Ha Hb) as H.
  assert (0 < 2 ^ 52) by reflexivity. lia.
Qed.

(** The mean total of a ranked entrant is a number other than zero. *)
Lemma mean_total_nonzero db ei :
  Forall row_ok (rows db) -> In ei (ranking db) ->
  exists v, mean_total db ei = Some v /\ mant v <> 0.
Proof.
  intros Hok Hin. apply ranking_In in Hin. unfold mean_total.
  assert (Hne : map total (ratings_of ei db) <> [])
    by (intros E; apply map_eq_nil in E; contradiction).
  rewrite (sql_avg_nonempty _ Hne). eexists. split; [reflexivity|].
  assert (Hc : Forall (fun v => 1 <= v <= 15) (map total (ratings_of ei db))).
  { apply column_bounds; [now apply ratings_of_row_ok|].
    intros r Hr. pose proof (row_ok_scores r Hr). unfold total. lia. }
  pose proof (sum_Z_bounds 1 15 _ Hc) as Hs.
  assert (0 < Z.of_nat (List.length (map total (ratings_of ei db))))
    by (destruct (map total (ratings_of ei db)); [congruence|simpl; lia]).
  apply of_ratio_mant_nonzero; lia.
Qed.

(** X13. The leaderboard snapshot of the admin page agrees with the public
    leaderboard: the same entrants in the same order, with the same vote
    counts and the same rounded mean totals. *)
Theorem admin_snapshot_matches_leaderboard environ db s req d l st s' entries :
  Forall row_ok (rows db) ->
  admin environ req s db = (Resp (ResultsPage d l) st, s') ->
  api_leaderboard db = Resp entries 200 ->
  map (fun y => (l_name y, l_votes y, l_avg_total y)) l =
  map (fun x => (name x, votes x, avg_total x)) entries.
Proof.
  intros Hok Ha Hl. apply admin_results_inv in Ha. destruct Ha as [_ Ha].
  unfold api_leaderboard in Hl.
  destruct (map_raise lb_entry_of (leaderboard_query db)) as [out|] eqn:E;
    [|discriminate].
  inversion Hl; subst out; clear Hl.
  rewrite leaderboard_query_spec in *.
  assert (Hnz : Forall (fun ei => exists v, mean_total db ei = Some v /\ mant v <> 0)
                  (ranking db)).
  { apply Forall_forall. intros ei. now apply mean_total_nonzero. }
  revert l entries Ha E.
  induction Hnz as [|ei q (v & Hv & Hm) _ IH]; simpl; intros l entries Ha E.
  - inversion Ha; inversion E; subst. reflexivity.
  - unfold lb_data_of, lb_entry_of in Ha, E.
    simpl a_entrant_index in *.
    destruct (getitem ENTRANTS ei) as [nm|]; [|discriminate].
    fold lb_data_of in Ha. fold lb_entry_of in E.
    destruct (map_raise lb_data_of (map (agg_of db) q)) as [l0|];
      [|discriminate].
    destruct (map_raise lb_entry_of (map (agg_of db) q)) as [e0|];
      [|discriminate].
    simpl in Ha, E. inversion Ha; inversion E; subst. simpl.
    rewrite (IH l0 e0 eq_refl eq_refl). f_equal.
    fold (mean_total db ei). rewrite Hv. simpl.
    apply Z.eqb_neq in Hm. now rewrite Hm.
Qed.

Lemma admin_snapshot_matches_leaderboard_witness :
  map (fun y => (l_name y, l_votes y, l_avg_total y))
    [ LbData "Javier" 1 (PyFloat (Finite f_12));
      LbData "Yesenia" 1 (PyFloat (Finite (F64 6755399441055744 (-50)))) ] =
  map (fun x => (name x, votes x, avg_total x))
    [ LbEntry "Javier" 1 (PyFloat (Finite f_5)) (PyFloat (Finite f_4))
        (PyFloat (Finite (F64 6755399441055744 (-51))))
        (PyFloat (Finite f_12));
      LbEntry "Yesenia" 1 (PyFloat (Finite (F64 4503599627370496 (-52))))
        (PyFloat (Finite (F64 4503599627370496 (-51))))
        (PyFloat (Finite (F64 6755399441055744 (-51))))
        (PyFloat (Finite (F64 6755399441055744 (-50)))) ].
Proof.
  apply (admin_snapshot_matches_leaderboard [] two_votes_db admin_session
           admin_get
           [ DetailedRow 1 "Javier" 5 4 3 12 "Ann" "d1" later;
             DetailedRow 2 "Yesenia" 1 2 3 6 "" "d2" noon ]
           _ 200 admin_session).
  - repeat constructor.
  - vm_compute. reflexivity.
  - vm_compute. reflexivity.
Defined.

Lemma rstrip_cons c s :
  rstrip (String c s) =
  match rstrip s with
  | EmptyString => if isspace c then EmptyString else String c EmptyString
  | r => String c r
  end.
Proof. reflexivity. Qed.

Lemma rstrip_rstrip s : rstrip (rstrip s) = rstrip s.
Proof.
  induction s as [|c s IH]; [reflexivity|].
  rewrite rstrip_cons. destruct (rstrip s) as [|c' r] eqn:E.
  - destruct (isspace c) eqn:Hc; [reflexivity|].
    rewrite rstrip_cons. simpl. now rewrite Hc.
  - rewrite rstrip_cons, IH. reflexivity.
Qed.

(** Stripping twice is stripping once. *)
Lemma strip_strip s : strip (strip s) = strip s.
Proof.
  unfold strip.
  rewrite (starts_clean_lstrip (rstrip (lstrip s)))
    by apply rstrip_starts_clean, lstrip_starts_clean.
  apply rstrip_rstrip.
Qed.

Lemma correct_post_false_if_padded environ a :
  strip (ADMIN_PASSWORD environ) <> ADMIN_PASSWORD environ ->
  correct_post environ a = false.
Proof.
  intros Hpad. destruct a as [req|]; [|reflexivity]. simpl.
  destruct (method req); [reflexivity|].
  apply String.eqb_neq. intros E. apply Hpad.
  rewrite <- E. unfold submitted_password. apply strip_strip.
Qed.

(** X14. The password of a POST is stripped of surrounding white space
    before the comparison, the configured one is not: when ADMIN_PASSWORD
    starts or ends with white space no request can authenticate, and an
    unauthenticated session is shown the password prompt whatever it
    sends. *)
Theorem padded_password_locks_out environ db s l req :
  strip (ADMIN_PASSWORD environ) <> ADMIN_PASSWORD environ ->
  is_admin s = false ->
  is_admin (admin_run environ db s l) = false /\
  exists err s',
    admin environ req (admin_run environ db s l) db =
    (Resp (LoginPage err) 200, s').
Proof.
  intros Hpad Hs.
  assert (Hrun : is_admin (admin_run environ db s l) = false).
  { rewrite admin_run_is_admin, Hs. unfold authenticated_after.
    induction l as [|a l IH] using rev_ind; [reflexivity|].
    rewrite fold_left_app. cbn [fold_left]. rewrite IH.
    destruct a as [rq|]; [|reflexivity].
    change (gate_step environ false (ToAdmin rq))
      with (false || correct_post environ (ToAdmin rq)).
    now rewrite (correct_post_false_if_padded environ (ToAdmin rq) Hpad). }
  split; [exact Hrun|].
  unfold admin. destruct (method req).
  - rewrite Hrun. simpl. eauto.
  - pose proof (correct_post_false_if_padded environ (ToAdmin req) Hpad) as C.
    simpl in C. destruct (method req) eqn:M.
    + destruct (String.eqb (submitted_password req) (ADMIN_PASSWORD environ))
        eqn:E; [|eauto].
      exfalso. apply String.eqb_eq in E. apply Hpad. rewrite <- E.
      unfold submitted_password. apply strip_strip.
    + rewrite C. eauto.
Qed.

Lemma padded_password_locks_out_witness :
  is_admin (admin_run padded_environ init_db []
              [ToAdmin (admin_post " chef"); ToAdmin (admin_post "chef")])
  = false /\
  exists err s',
    admin padded_environ admin_get
      (admin_run padded_environ init_db []
         [ToAdmin (admin_post " chef"); ToAdmin (admin_post "chef")]) init_db
    = (Resp (LoginPage err) 200, s').
Proof.
  apply (padded_password_locks_out padded_environ init_db []
           [ToAdmin (admin_post " chef"); ToAdmin (admin_post "chef")]
           admin_get).
  - discriminate.
  - reflexivity.
Defined.

Lemma dict_get_pop_other {A} (d : list (string * A)) k k' :
  k' <> k -> dict_get (dict_pop d k) k' = dict_get d k'.
Proof.
  intros Hne. induction d as [|[k0 v] d IH]; simpl; [reflexivity|].
  destruct (String.eqb k0 k) eqn:E.
  - apply String.eqb_eq in E. subst k0.
    replace (String.eqb k k') with false
      by (symmetry; apply String.eqb_neq; congruence).
    exact IH.
  - simpl. now rewrite IH.
Qed.

Lemma dict_get_set_other {A} (d : list (string * A)) k v k' :
  k' <> k -> dict_get (dict_set d k v) k' = dict_get d k'.
Proof.
  intros Hne. unfold dict_set. simpl.
  replace (String.eqb k k') with false
    by (symmetry; apply String.eqb_neq; congruence).
  now apply dict_get_pop_other.
Qed.

(** X15. The admin routes write one key of the session only: whatever
    else the session holds is the same after any request to /admin or
    /admin/logout. *)
Theorem admin_touches_only_is_admin environ db s a k :
  k <> "is_admin" ->
  dict_get (snd (admin_step environ db s a)) k = dict_get s k.
Proof.
  intros Hk. destruct a as [req|]; cbn [admin_step].
  - unfold admin. destruct (method req).
    + destruct (negb (is_admin s)); [reflexivity|].
      destruct (map_raise detailed_of _); [|reflexivity].
      destruct (map_raise lb_data_of _); reflexivity.
    + destruct (String.eqb _ _); cbn [snd]; [|reflexivity].
      now apply dict_get_set_other.
  - unfold admin_logout. cbn [snd]. now apply dict_get_pop_other.
Qed.

Lemma admin_touches_only_is_admin_witness :
  dict_get (snd (admin_step [] init_db [("lang", PyStr "es")]
                   (ToAdmin (admin_post "MASTERCHEF2025")))) "lang"
  = dict_get [("lang", PyStr "es")] "lang".
Proof.
  apply (admin_touches_only_is_admin [] init_db [("lang", PyStr "es")]
           (ToAdmin (admin_post "MASTERCHEF2025")) "lang").
  discriminate.
Defined.

(* ------------------------------------------------------------------ *)
(** ** The home page and the device cookie *)

(** X16. [home] hands out a device cookie exactly to the requests that
    [device_id_from_request] files under the shared "anon" identity for want
    of a cookie: a request with a non-empty device cookie gets none and
    keeps its identifier; any other gets the fresh identifier, valid for one
    year with SameSite Lax, and the browser's next request is identified by
    it (unless the fresh identifier were empty). *)
Theorem home_issues_device_cookie uuid4 req :
  (forall d, dict_get (cookies req) "device_id" = Some d -> d <> "" ->
     h_set_cookie (home uuid4 req) = None /\
     device_id_from_request req = d) /\
  (dict_get (cookies req) "device_id" = None \/
   dict_get (cookies req) "device_id" = Some "" ->
     h_set_cookie (home uuid4 req) = Some (device_cookie uuid4) /\
     device_id_from_request req = "anon" /\
     (uuid4 <> "" ->
      forall next,
        device_id_from_request (with_cookie (device_cookie uuid4) next)
        = uuid4 /\
        h_set_cookie (home uuid4 (with_cookie (device_cookie uuid4) next))
        = None)).
Proof.
  split.
  - intros d Hd Hne. unfold home, device_id_from_request. rewrite Hd.
    apply String.eqb_neq in Hne. rewrite Hne. auto.
  - intros Hc.
    assert (Hnext : uuid4 <> "" -> forall next,
              dict_get (cookies (with_cookie (device_cookie uuid4) next))
                "device_id" = Some uuid4).
    { intros _ next. unfold with_cookie. cbn [cookies device_cookie c_name
        c_value]. apply dict_get_set. }
    split; [|split].
    + unfold home. destruct Hc as [-> | ->]; reflexivity.
    + unfold device_id_from_request. destruct Hc as [-> | ->]; reflexivity.
    + intros Hu next. pose proof (Hnext Hu next) as N.
      apply String.eqb_neq in Hu.
      unfold device_id_from_request, home. rewrite N, Hu. auto.
Qed.

Lemma home_issues_device_cookie_witness :
  h_set_cookie (home "3f2b" admin_get) = Some (device_cookie "3f2b") /\
  device_id_from_request admin_get = "anon" /\
  ("3f2b" <> "" ->
   forall next,
     device_id_from_request (with_cookie (device_cookie "3f2b") next) = "3f2b"
     /\ h_set_cookie (home "3f2b" (with_cookie (device_cookie "3f2b") next))
        = None).
Proof.
  apply (proj2 (home_issues_device_cookie "3f2b" admin_get)).
  left. reflexivity.
Defined.

(* ------------------------------------------------------------------ *)
(** ** The pages over reachable tables *)

(** X18. Whatever submissions were made since the database was empty, the
    pages that read the table do not fail: the leaderboard answers 200, the
    export streams its header and one line per rating to the end, and an
    authenticated GET of /admin renders the detailed view. *)
Theorem reachable_tables_render environ l s req :
  let db := rate_all l init_db in
  (exists entries, api_leaderboard db = Resp entries 200) /\
  finished (export_csv db) = true /\
  List.length (chunks (export_csv db)) = S (List.length (rows db)) /\
  (method req = GET -> is_admin s = true ->
   exists d lb, admin environ req s db = (Resp (ResultsPage d lb) 200, s)).
Proof.
  intros db.
  assert (Hok : Forall row_ok (rows db)).
  { apply (rate_all_invariant table_ok init_db_ok); intros.
    now apply api_rate_table_ok. }
  split; [|split; [|split]].
  - destruct (api_leaderboard_spec db Hok) as (entries & H & _). eauto.
  - unfold export_csv, export_query, generate.
    destruct (generate_rows_valid _ (order_by_Forall by_created_at row_ok _ Hok))
      as (data & -> & _). reflexivity.
  - unfold export_csv, export_query, generate.
    destruct (generate_rows_valid _ (order_by_Forall by_created_at row_ok _ Hok))
      as (data & -> & HF). simpl. f_equal.
    rewrite <- (Forall2_length HF). apply order_by_length.
  - intros Hm Ha. now apply admin_results_when_authenticated.
Qed.
